(** * NavigationService (web-ng/src/app/services/router/router.service.ts)

    A shallow embedding of the service that mirrors the application state kept
    in the URL fragment, together with the parts of its collaborators that the
    service calls: [HttpParams] and its codec (@angular/common/http), the
    [Router] and [ActivatedRoute] (@angular/router), RxJS [map] and the
    ECMAScript functions [encodeURIComponent] / [decodeURIComponent].

    Strings are byte strings: a JavaScript string is represented by its UTF-8
    encoding, so the characters of the fragment grammar (ASCII) are single
    characters of the model. *)

From Stdlib Require Import String Ascii List Bool Arith Lia.
Import ListNotations.
Open Scope string_scope.
Open Scope list_scope.

(** ** JavaScript results *)

(** The two exceptions the modelled code can raise: dereferencing [undefined]
    and a malformed percent escape. *)
Inductive JsError : Type := TypeError | URIError.

Inductive Result (A : Type) : Type :=
| Ok (a : A)
| Throw (e : JsError).
Arguments Ok {A} a.
Arguments Throw {A} e.

Definition bind {A B : Type} (r : Result A) (k : A -> Result B) : Result B :=
  match r with
  | Ok a => k a
  | Throw e => Throw e
  end.

Notation "x <- r ;; k" := (bind r (fun x => k))
  (at level 61, r at next level, right associativity).

Definition rmap {A B : Type} (f : A -> B) (r : Result A) : Result B :=
  x <- r ;; Ok (f x).

(** [string | null]: [None] stands for [null] (and [undefined]). *)
Definition truthy (v : option string) : bool :=
  match v with
  | Some s => negb (s =? "")
  | None => false
  end.

(** [v || ''] *)
Definition orEmpty (v : option string) : string :=
  match v with
  | Some s => s
  | None => ""
  end.

(** ** String primitives *)

Definition code (c : ascii) : nat := nat_of_ascii c.

Definition between (lo hi n : nat) : bool := Nat.leb lo n && Nat.leb n hi.

Fixpoint mem_ascii (c : ascii) (s : string) : bool :=
  match s with
  | EmptyString => false
  | String d r => Ascii.eqb c d || mem_ascii c r
  end.

(** [s.indexOf(c)], [None] for -1. *)
Fixpoint indexOf (c : ascii) (s : string) : option nat :=
  match s with
  | EmptyString => None
  | String d r =>
      if Ascii.eqb d c then Some 0
      else match indexOf c r with
           | Some i => Some (S i)
           | None => None
           end
  end.

Fixpoint take (n : nat) (s : string) : string :=
  match n, s with
  | S k, String c r => String c (take k r)
  | _, _ => EmptyString
  end.

Fixpoint drop (n : nat) (s : string) : string :=
  match n, s with
  | S k, String _ r => drop k r
  | _, _ => s
  end.

(** [s.split(sep)] for a one-character separator: never the empty array. *)
Fixpoint split (sep : ascii) (s : string) : list string :=
  match s with
  | EmptyString => [EmptyString]
  | String c r =>
      if Ascii.eqb c sep then EmptyString :: split sep r
      else match split sep r with
           | h :: t => String c h :: t
           | [] => [String c EmptyString]
           end
  end.

(** [xs.join(sep)] *)
Fixpoint join (sep : string) (xs : list string) : string :=
  match xs with
  | [] => EmptyString
  | [x] => x
  | x :: rest => x ++ sep ++ join sep rest
  end.

(** ** ECMAScript URI functions

    [encodeURIComponent] and [decodeURIComponent] on the UTF-8 octets of a
    string. Decoding throws a URIError on an escape that is cut short, that
    is not hexadecimal, or whose octets are not the UTF-8 form of a code
    point. Encoding is given on the strings that have a UTF-8 form: a
    JavaScript string with a lone surrogate has none, and the URIError that
    [encodeURIComponent] throws on it is outside this model: a string of the
    model stands for a JavaScript string without lone surrogates. *)

Definition hexchar (n : nat) : ascii :=
  if Nat.ltb n 10 then ascii_of_nat (48 + n) else ascii_of_nat (55 + n).

Definition hexval (c : ascii) : option nat :=
  let n := code c in
  if between 48 57 n then Some (n - 48)
  else if between 65 70 n then Some (n - 55)
  else if between 97 102 n then Some (n - 87)
  else None.

(** uriUnescaped: letters, digits and the marks [- _ . ! ~ * ' ( )]. *)
Definition uriUnescaped (c : ascii) : bool :=
  let n := code c in
  between 65 90 n || between 97 122 n || between 48 57 n
  || mem_ascii c "-_.!~*'()".

(** Every other octet of the UTF-8 encoding is written [%XX]. *)
Fixpoint encodeURIComponent (s : string) : string :=
  match s with
  | EmptyString => EmptyString
  | String c r =>
      if uriUnescaped c then String c (encodeURIComponent r)
      else String "%" (String (hexchar (code c / 16))
             (String (hexchar (code c mod 16)) (encodeURIComponent r)))
  end.

(** The first octet of a multi-octet UTF-8 sequence: how many octets follow
    and the range the next one must lie in (no overlong form, no surrogate,
    nothing above U+10FFFF). *)
Definition utf8_lead (b : nat) : option (nat * nat * nat) :=
  if between 194 223 b then Some (1, 128, 191)
  else if Nat.eqb b 224 then Some (2, 160, 191)
  else if between 225 236 b then Some (2, 128, 191)
  else if Nat.eqb b 237 then Some (2, 128, 159)
  else if between 238 239 b then Some (2, 128, 191)
  else if Nat.eqb b 240 then Some (3, 144, 191)
  else if between 241 243 b then Some (3, 128, 191)
  else if Nat.eqb b 244 then Some (3, 128, 143)
  else None.

(** Decode of ECMAScript with an empty reserved set. [pending] octets of a
    multi-octet sequence are still expected, the next one within [lo..hi];
    each of them must be written as an escape. *)
Fixpoint decode_from (pending lo hi : nat) (s : string) : Result string :=
  match s with
  | EmptyString =>
      match pending with
      | 0 => Ok EmptyString
      | S _ => Throw URIError
      end
  | String c s1 =>
      if Ascii.eqb c "%" then
        match s1 with
        | String h1 (String h2 rest) =>
            match hexval h1, hexval h2 with
            | Some a, Some b =>
                let B := 16 * a + b in
                match pending with
                | 0 =>
                    if Nat.ltb B 128 then
                      rmap (String (ascii_of_nat B)) (decode_from 0 0 0 rest)
                    else
                      match utf8_lead B with
                      | Some (n, lo', hi') =>
                          rmap (String (ascii_of_nat B))
                               (decode_from n lo' hi' rest)
                      | None => Throw URIError
                      end
                | S p =>
                    if between lo hi B then
                      rmap (String (ascii_of_nat B))
                           (decode_from p 128 191 rest)
                    else Throw URIError
                end
            | _, _ => Throw URIError
            end
        | _ => Throw URIError
        end
      else
        match pending with
        | 0 => rmap (String c) (decode_from 0 0 0 s1)
        | S _ => Throw URIError
        end
  end.

Definition decodeURIComponent (s : string) : Result string :=
  decode_from 0 0 0 s.

(** ** HttpParams (@angular/common/http)

    The class is not part of the repository; what follows is its behaviour
    as the service relies on it: [standardEncoding], the default codec,
    [paramParser], and [get], [set], [delete] and [toString] over the
    underlying [Map] from a key to the array of its values. The parser is the
    one of the releases of 2020, which splits the string as given. *)

Definition toUpperCase (c : ascii) : ascii :=
  if between 97 122 (code c) then ascii_of_nat (code c - 32) else c.

Definition eqb_ci (a b : ascii) : bool :=
  Ascii.eqb (toUpperCase a) (toUpperCase b).

(** [s.replace(/%h1h2/gi, r)] *)
Fixpoint replaceEscape (h1 h2 r : ascii) (s : string) : string :=
  match s with
  | EmptyString => EmptyString
  | String c s1 =>
      match s1 with
      | String a (String b rest) =>
          if Ascii.eqb c "%" && eqb_ci a h1 && eqb_ci b h2
          then String r (replaceEscape h1 h2 r rest)
          else String c (replaceEscape h1 h2 r s1)
      | _ => String c (replaceEscape h1 h2 r s1)
      end
  end.

Definition standardEncoding (v : string) : string :=
  replaceEscape "2" "F" "/"
    (replaceEscape "3" "F" "?"
      (replaceEscape "3" "D" "="
        (replaceEscape "2" "B" "+"
          (replaceEscape "3" "B" ";"
            (replaceEscape "2" "C" ","
              (replaceEscape "2" "4" "$"
                (replaceEscape "3" "A" ":"
                  (replaceEscape "4" "0" "@"
                    (encodeURIComponent v))))))))).

(** interface HttpParameterCodec *)
Class HttpParameterCodec : Type := {
  encodeKey : string -> string;
  encodeValue : string -> string;
  decodeKey : string -> Result string;
  decodeValue : string -> Result string
}.

(** class HttpUrlEncodingCodec implements HttpParameterCodec: the codec of an
    [HttpParams] built without an [encoder] option. *)
#[export] Instance HttpUrlEncodingCodec : HttpParameterCodec := {
  encodeKey := standardEncoding;
  encodeValue := standardEncoding;
  decodeKey := decodeURIComponent;
  decodeValue := decodeURIComponent
}.

(** A JavaScript [Map] with string keys: entries in insertion order, one per
    key. *)
Definition JsMap (V : Type) : Type := list (string * V).

Fixpoint Map_get {V : Type} (k : string) (m : JsMap V) : option V :=
  match m with
  | [] => None
  | (k', v) :: rest => if k' =? k then Some v else Map_get k rest
  end.

Definition Map_has {V : Type} (k : string) (m : JsMap V) : bool :=
  match Map_get k m with
  | Some _ => true
  | None => false
  end.

(** [m.set(k, v)]: an existing key keeps its place, a new one goes last. *)
Fixpoint Map_set {V : Type} (k : string) (v : V) (m : JsMap V) : JsMap V :=
  match m with
  | [] => [(k, v)]
  | (k', v') :: rest =>
      if k' =? k then (k', v) :: rest else (k', v') :: Map_set k v rest
  end.

Fixpoint Map_delete {V : Type} (k : string) (m : JsMap V) : JsMap V :=
  match m with
  | [] => []
  | (k', v') :: rest =>
      if k' =? k then rest else (k', v') :: Map_delete k rest
  end.

Definition Map_keys {V : Type} (m : JsMap V) : list string := map fst m.

(** The decoded parameters: every key with the array of its values. The
    pending updates of a clone are applied when it is made. *)
Record HttpParams : Type := { pmap : JsMap (list string) }.

Section Params.
Context {codec : HttpParameterCodec}.

(** One [param] of [paramParser]'s [forEach]. *)
Definition parseParam (acc : JsMap (list string)) (param : string)
  : Result (JsMap (list string)) :=
  kv <- match indexOf "=" param with
        | None =>
            key <- decodeKey param ;; Ok (key, EmptyString)
        | Some eqIdx =>
            key <- decodeKey (take eqIdx param) ;;
            val <- decodeValue (drop (eqIdx + 1) param) ;;
            Ok (key, val)
        end ;;
  let list := match Map_get (fst kv) acc with
              | Some l => l
              | None => []
              end in
  Ok (Map_set (fst kv) (list ++ [snd kv]) acc).

Fixpoint parseParams (acc : JsMap (list string)) (params : list string)
  : Result (JsMap (list string)) :=
  match params with
  | [] => Ok acc
  | param :: rest => acc' <- parseParam acc param ;; parseParams acc' rest
  end.

Definition paramParser (rawParams : string) : Result (JsMap (list string)) :=
  if Nat.ltb 0 (String.length rawParams)
  then parseParams [] (split "&" rawParams)
  else Ok [].

(** [new HttpParams({ fromString })] *)
Definition HttpParams_fromString (fromString : string) : Result HttpParams :=
  if negb (fromString =? "")
  then m <- paramParser fromString ;; Ok {| pmap := m |}
  else Ok {| pmap := [] |}.

Definition HttpParams_has (param : string) (p : HttpParams) : bool :=
  Map_has param (pmap p).

(** [get]: the first value of the key, [null] when the key is absent. *)
Definition HttpParams_get (param : string) (p : HttpParams) : option string :=
  match Map_get param (pmap p) with
  | Some res => hd_error res
  | None => None
  end.

Definition HttpParams_getAll (param : string) (p : HttpParams)
  : option (list string) :=
  Map_get param (pmap p).

Definition HttpParams_keys (p : HttpParams) : list string :=
  Map_keys (pmap p).

(** op 's' *)
Definition HttpParams_set (param value : string) (p : HttpParams)
  : HttpParams :=
  {| pmap := Map_set param [value] (pmap p) |}.

(** op 'd' without a value *)
Definition HttpParams_delete (param : string) (p : HttpParams) : HttpParams :=
  {| pmap := Map_delete param (pmap p) |}.

Definition HttpParams_toString (p : HttpParams) : string :=
  join "&"
    (filter (fun param => negb (param =? ""))
       (map (fun key =>
               let eKey := encodeKey key in
               join "&"
                 (map (fun value => (eKey ++ "=" ++ encodeValue value)%string)
                    (match Map_get key (pmap p) with
                     | Some vs => vs
                     | None => []
                     end)))
          (HttpParams_keys p))).
End Params.

(** ** RxJS observables

    An observable is taken by the notifications one subscriber receives. *)

(** What a subscriber is sent, in order. *)
Inductive Notification (A : Type) : Type :=
| Next (a : A)
| Error (e : JsError)
| Complete.
Arguments Next {A} a.
Arguments Error {A} e.
Arguments Complete {A}.

Definition Observable (A : Type) : Type := list (Notification A).

(** [source.pipe(map(project))]: an exception of [project] is sent as an error,
    which ends the stream. *)
Fixpoint rx_map {A B : Type} (project : A -> Result B) (source : Observable A)
  : Observable B :=
  match source with
  | [] => []
  | Next a :: rest =>
      match project a with
      | Ok b => Next b :: rx_map project rest
      | Throw e => [Error e]
      end
  | Error e :: _ => [Error e]
  | Complete :: _ => [Complete]
  end.

(** ** Router and ActivatedRoute (@angular/router) *)

(** [ParamMap.get(name)] *)
Definition ParamMap : Type := list (string * string).

Fixpoint ParamMap_get (name : string) (params : ParamMap) : option string :=
  match params with
  | [] => None
  | (k, v) :: rest => if k =? name then Some v else ParamMap_get name rest
  end.

Record ActivatedRouteSnapshot : Type := { snapshot_fragment : option string }.

Record ActivatedRoute : Type := {
  paramMap : Observable ParamMap;
  fragment : Observable (option string);
  snapshot : ActivatedRouteSnapshot
}.

(** The options of a navigation the service or the claims mention; an option
    left out is [None]. The router replaces the current history entry only
    when [replaceUrl] is true. *)
Record NavigationExtras : Type := {
  extras_fragment : option string;
  replaceUrl : option bool
}.

Definition noExtras : NavigationExtras :=
  {| extras_fragment := None; replaceUrl := None |}.

Inductive NavigationRequest : Type :=
| Navigate (commands : list string) (extras : NavigationExtras)
| NavigateByUrl (url : string) (extras : NavigationExtras).

Definition request_extras (r : NavigationRequest) : NavigationExtras :=
  match r with
  | Navigate _ e => e
  | NavigateByUrl _ e => e
  end.

Definition replacesHistory (r : NavigationRequest) : bool :=
  match replaceUrl (request_extras r) with
  | Some b => b
  | None => false
  end.

(** [primary] is [parseUrl(url).root.children['primary']] written as a path,
    [None] when the current url has no primary segment group (the url [/]);
    [requests] are the navigations asked for so far. *)
Record Router : Type := {
  primary : option string;
  requests : list NavigationRequest
}.

Definition Router_request (r : NavigationRequest) (router : Router) : Router :=
  {| primary := primary router; requests := requests router ++ [r] |}.

(** ** NavigationService *)

Inductive SideNavMode : Type := LAYER_LIST | OBSERVATION | FEATURE.

Definition LAYER_ID_FRAGMENT_PARAM : string := "l".
Definition FEATURE_ID_FRAGMENT_PARAM : string := "f".
Definition OBSERVATION_ID_FRAGMENT_PARAM : string := "o".
Definition LAYER_ID_NEW : string := "new".
Definition OBSERVATION_ID_NEW : string := "new".
Definition PROJECT_ID_NEW : string := "new".
Definition PROJECT_ID : string := "projectId".
Definition PROJECT_SEGMENT : string := "project".
Definition SIGN_IN_SEGMENT : string := "signin".

Definition fragmentParamsToSideNavMode (params : HttpParams) : SideNavMode :=
  if truthy (HttpParams_get OBSERVATION_ID_FRAGMENT_PARAM params)
  then OBSERVATION
  else if truthy (HttpParams_get FEATURE_ID_FRAGMENT_PARAM params)
  then FEATURE
  else LAYER_LIST.

(** The fields of the class; the optional ones are [None] until [init]. The
    streams are written with a quote for the dollar sign of the source. *)
Record NavigationService : Type := {
  router : Router;
  activatedRoute : option ActivatedRoute;
  projectId' : option (Observable (option string));
  layerId' : option (Observable (option string));
  featureId' : option (Observable (option string));
  observationId' : option (Observable (option string));
  sideNavMode' : option (Observable SideNavMode)
}.

Definition constructor (router : Router) : NavigationService :=
  {| router := router;
     activatedRoute := None;
     projectId' := None;
     layerId' := None;
     featureId' := None;
     observationId' := None;
     sideNavMode' := None |}.

Definition init (route : ActivatedRoute) (this : NavigationService)
  : NavigationService :=
  let fragmentParams' :=
    rx_map (fun fragment => HttpParams_fromString (orEmpty fragment))
           (fragment route) in
  {| router := router this;
     activatedRoute := Some route;
     projectId' :=
       Some (rx_map (fun params => Ok (ParamMap_get PROJECT_ID params))
                    (paramMap route));
     layerId' :=
       Some (rx_map
               (fun params => Ok (HttpParams_get LAYER_ID_FRAGMENT_PARAM params))
               fragmentParams');
     featureId' :=
       Some (rx_map
               (fun params =>
                  Ok (HttpParams_get FEATURE_ID_FRAGMENT_PARAM params))
               fragmentParams');
     observationId' :=
       Some (rx_map
               (fun params =>
                  Ok (HttpParams_get OBSERVATION_ID_FRAGMENT_PARAM params))
               fragmentParams');
     sideNavMode' :=
       Some (rx_map (fun params => Ok (fragmentParamsToSideNavMode params))
                    fragmentParams') |}.

(** The accessors return the field as it is: the non-null assertion of the
    source is erased by the compiler, so an unset field comes back as
    [undefined] ([None]). *)
Definition getProjectId' (this : NavigationService)
  : Result (option (Observable (option string))) := Ok (projectId' this).

Definition getLayerId' (this : NavigationService)
  : Result (option (Observable (option string))) := Ok (layerId' this).

Definition getFeatureId' (this : NavigationService)
  : Result (option (Observable (option string))) := Ok (featureId' this).

Definition getObservationId' (this : NavigationService)
  : Result (option (Observable (option string))) := Ok (observationId' this).

Definition getSideNavMode' (this : NavigationService)
  : Result (option (Observable SideNavMode)) := Ok (sideNavMode' this).

(** [this.activatedRoute!.snapshot.fragment]: reading a property of
    [undefined] is a TypeError. *)
Definition getFragmentParams (this : NavigationService) : Result HttpParams :=
  route <- match activatedRoute this with
           | Some route => Ok route
           | None => Throw TypeError
           end ;;
  let fragment := snapshot_fragment (snapshot route) in
  HttpParams_fromString (orEmpty fragment).

Definition Router_navigate (commands : list string) (extras : NavigationExtras)
  (this : NavigationService) : NavigationService :=
  {| router := Router_request (Navigate commands extras) (router this);
     activatedRoute := activatedRoute this;
     projectId' := projectId' this;
     layerId' := layerId' this;
     featureId' := featureId' this;
     observationId' := observationId' this;
     sideNavMode' := sideNavMode' this |}.

Definition Router_navigateByUrl (url : string) (this : NavigationService)
  : NavigationService :=
  {| router := Router_request (NavigateByUrl url noExtras) (router this);
     activatedRoute := activatedRoute this;
     projectId' := projectId' this;
     layerId' := layerId' this;
     featureId' := featureId' this;
     observationId' := observationId' this;
     sideNavMode' := sideNavMode' this |}.

Definition setFragmentParams (params : HttpParams) (this : NavigationService)
  : Result NavigationService :=
  primaryUrl <- match primary (router this) with
                | Some group => Ok group
                | None => Throw TypeError
                end ;;
  if negb (HttpParams_toString params =? "") then
    let navigationExtras :=
      {| extras_fragment := Some (HttpParams_toString params);
         replaceUrl := None |} in
    Ok (Router_navigate [primaryUrl] navigationExtras this)
  else
    Ok (Router_navigate [primaryUrl] noExtras this).

(** What [setFragmentParam] is handed: an Immutable.js [Map] of updates, or,
    from [editObservation], a plain string. *)
Inductive Updates : Type :=
| ImmutableMap (entries : JsMap (option string))
| PlainString (s : string).

(** [Map(entries)] of Immutable.js, for the few entries given here. *)
Definition Immutable_Map (entries : list (string * option string)) : Updates :=
  ImmutableMap (fold_left (fun m kv => Map_set (fst kv) (snd kv) m) entries []).

Fixpoint characters (s : string) : list string :=
  match s with
  | EmptyString => []
  | String c r => String c EmptyString :: characters r
  end.

(** [for (const [key, value] of updates)]: a map yields its entries; a string
    yields its characters (one per octet here, which is exact for the ASCII
    keys of the service), and the pattern takes [key] from the character and
    leaves [value] undefined. *)
Definition iterate (updates : Updates) : list (string * option string) :=
  match updates with
  | ImmutableMap entries => entries
  | PlainString s => map (fun ch => (ch, None)) (characters s)
  end.

(** The body of the loop of [setFragmentParam]. *)
Definition applyUpdate (params : HttpParams) (kv : string * option string)
  : HttpParams :=
  let (key, value) := kv in
  if truthy value then HttpParams_set key (orEmpty value) params
  else HttpParams_delete key params.

Definition setFragmentParam (updates : Updates) (this : NavigationService)
  : Result NavigationService :=
  params <- getFragmentParams this ;;
  let params := fold_left applyUpdate (iterate updates) params in
  setFragmentParams params this.

Definition getFeatureId (this : NavigationService) : Result (option string) :=
  params <- getFragmentParams this ;;
  Ok (HttpParams_get FEATURE_ID_FRAGMENT_PARAM params).

Definition getObservationId (this : NavigationService)
  : Result (option string) :=
  params <- getFragmentParams this ;;
  Ok (HttpParams_get OBSERVATION_ID_FRAGMENT_PARAM params).

(** The object [updates] that [setFeatureId] fills in. *)
Definition featureUpdates (id observationId : option string)
  : list (string * option string) :=
  (FEATURE_ID_FRAGMENT_PARAM, id)
    :: (if truthy observationId
        then [(OBSERVATION_ID_FRAGMENT_PARAM, None)]
        else []).

Definition setFeatureId (id : option string) (this : NavigationService)
  : Result NavigationService :=
  observationId <- getObservationId this ;;
  setFragmentParam (Immutable_Map (featureUpdates id observationId)) this.

Definition setObservationId (id : option string) (this : NavigationService)
  : Result NavigationService :=
  setFragmentParam (Immutable_Map [(OBSERVATION_ID_FRAGMENT_PARAM, id)]) this.

(** The call passes the key itself where the map of updates is expected; the
    second argument is not read. *)
Definition editObservation (id : option string) (this : NavigationService)
  : Result NavigationService :=
  setFragmentParam (PlainString OBSERVATION_ID_FRAGMENT_PARAM) this.

Definition setLayerId (id : string) (this : NavigationService)
  : Result NavigationService :=
  setFragmentParam (Immutable_Map [(LAYER_ID_FRAGMENT_PARAM, Some id)]) this.

Definition selectProject (id : string) (this : NavigationService)
  : NavigationService :=
  Router_navigateByUrl (PROJECT_SEGMENT ++ "/" ++ id)%string this.

Definition newProject (this : NavigationService) : NavigationService :=
  Router_navigate [PROJECT_SEGMENT; PROJECT_ID_NEW] noExtras this.

Definition signIn (this : NavigationService) : NavigationService :=
  Router_navigate [SIGN_IN_SEGMENT] noExtras this.

Definition signOut (this : NavigationService) : NavigationService :=
  Router_navigate ["/"] noExtras this.

(** ** Running the service *)

(** A service bound to a route whose snapshot has the given fragment, at a
    url with the given primary path. *)
Definition routeAt (fragment : option string) : ActivatedRoute :=
  {| paramMap := [];
     fragment := [Next fragment];
     snapshot := {| snapshot_fragment := fragment |} |}.

Definition serviceAt (path : option string) (fragment : option string)
  : NavigationService :=
  init (routeAt fragment)
       (constructor {| primary := path; requests := [] |}).

Definition lastRequest (this : NavigationService) : option NavigationRequest :=
  last (map Some (requests (router this))) None.

Definition requestedOf (r : Result NavigationService)
  : option NavigationRequest :=
  match r with
  | Ok this => lastRequest this
  | Throw _ => None
  end.


(** The operations of the service that ask for a navigation. *)
Inductive Command : Type :=
| SetFeatureId (id : option string)
| SetObservationId (id : option string)
| SetLayerId (id : string)
| SelectProject (id : string)
| NewProject
| SignIn
| SignOut.

Definition run (c : Command) (this : NavigationService)
  : Result NavigationService :=
  match c with
  | SetFeatureId id => setFeatureId id this
  | SetObservationId id => setObservationId id this
  | SetLayerId id => setLayerId id this
  | SelectProject id => Ok (selectProject id this)
  | NewProject => Ok (newProject this)
  | SignIn => Ok (signIn this)
  | SignOut => Ok (signOut this)
  end.

Definition fragmentCommand (c : Command) : bool :=
  match c with
  | SetFeatureId _ | SetObservationId _ | SetLayerId _ => true
  | _ => false
  end.

(** The updates a fragment command applies to the current parameters, and the
    parameters it hands to [setFragmentParams]. *)
Definition commandUpdates (c : Command) (current : HttpParams)
  : list (string * option string) :=
  match c with
  | SetFeatureId id =>
      featureUpdates id (HttpParams_get OBSERVATION_ID_FRAGMENT_PARAM current)
  | SetObservationId id => [(OBSERVATION_ID_FRAGMENT_PARAM, id)]
  | SetLayerId id => [(LAYER_ID_FRAGMENT_PARAM, Some id)]
  | _ => []
  end.

Definition nextParams (c : Command) (current : HttpParams) : HttpParams :=
  fold_left applyUpdate (commandUpdates c current) current.

(** The fragment keys a command names in its updates. *)
Definition updatedKeys (c : Command) : list string :=
  match c with
  | SetFeatureId _ =>
      [FEATURE_ID_FRAGMENT_PARAM; OBSERVATION_ID_FRAGMENT_PARAM]
  | SetObservationId _ => [OBSERVATION_ID_FRAGMENT_PARAM]
  | SetLayerId _ => [LAYER_ID_FRAGMENT_PARAM]
  | _ => []
  end.

(** ** Vocabulary of the specification *)

(** URL-safe strings: made of characters that need no escape. *)
Fixpoint urlSafe (s : string) : bool :=
  match s with
  | EmptyString => true
  | String c r => uriUnescaped c && urlSafe r
  end.

Definition urlSafeEntry (kv : string * list string) : bool :=
  urlSafe (fst kv) && forallb urlSafe (snd kv).

Definition urlSafeMap (m : JsMap (list string)) : bool :=
  forallb urlSafeEntry m.

(** The invariant of the map of an [HttpParams]: a key occurs once and has at
    least one value. A FragmentMap of the specification is such a map with
    one value per key. *)
Fixpoint distinct (ks : list string) : bool :=
  match ks with
  | [] => true
  | k :: rest => negb (existsb (String.eqb k) rest) && distinct rest
  end.

Definition hasValues (kv : string * list string) : bool :=
  match snd kv with
  | [] => false
  | _ :: _ => true
  end.

Definition Map_wf (m : JsMap (list string)) : bool :=
  distinct (Map_keys m) && forallb hasValues m.

(** A key is selected when its first value is not the empty string. *)
Definition selected (key : string) (p : HttpParams) : bool :=
  match Map_get key (pmap p) with
  | Some (v :: _) => negb (v =? "")
  | _ => false
  end.

(** The mode of the specification, by precedence over the selected keys. *)
Definition project (p : HttpParams) : SideNavMode :=
  if selected OBSERVATION_ID_FRAGMENT_PARAM p then OBSERVATION
  else if selected FEATURE_ID_FRAGMENT_PARAM p then FEATURE
  else LAYER_LIST.

(** The navigation options of the specification for the next parameters: no
    fragment at all when there are none. *)
Definition targetExtras (next : HttpParams) : NavigationExtras :=
  match pmap next with
  | [] => noExtras
  | _ :: _ =>
      {| extras_fragment := Some (HttpParams_toString next);
         replaceUrl := None |}
  end.

(** A stream emits only changes when no two consecutive values are equal. *)
Fixpoint emitsOnlyChanges (values : list (option string)) : bool :=
  match values with
  | a :: (b :: _) as rest =>
      negb (match a, b with
            | Some x, Some y => x =? y
            | None, None => true
            | _, _ => false
            end) && emitsOnlyChanges rest
  | _ => true
  end.

(** The [key=value] pieces of a map, in the order [toString] writes them. *)
Definition pieces (m : JsMap (list string)) : list string :=
  concat (map (fun kv => map (fun v => (fst kv ++ "=" ++ v)%string) (snd kv)) m).

(** The id a fragment command carries is URL-safe (null is). *)
Definition urlSafeCommand (c : Command) : bool :=
  match c with
  | SetFeatureId id | SetObservationId id => urlSafe (orEmpty id)
  | SetLayerId id => urlSafe id
  | _ => true
  end.

(** An update names a URL-safe key and sets a URL-safe value, if any. *)
Definition urlSafeUpdate (kv : string * option string) : bool :=
  urlSafe (fst kv) && urlSafe (orEmpty (snd kv)).

(** The values a key has so far, as [paramParser] reads them. *)
Definition valuesOr (k : string) (m : JsMap (list string)) : list string :=
  match Map_get k m with
  | Some l => l
  | None => []
  end.

(** The mode that goes with an observation id and a feature id. *)
Definition modeOfIds (observationId featureId : option string) : SideNavMode :=
  if truthy observationId then OBSERVATION
  else if truthy featureId then FEATURE
  else LAYER_LIST.

(** Two maps of parameters have the same content when every key has the same
    values in both; the order of the keys may differ. *)
Definition sameContent (p q : HttpParams) : Prop :=
  forall k, HttpParams_getAll k p = HttpParams_getAll k q.

(** The keys of the parameters after one update of a key: a key that is set
    keeps its place or, when new, goes last; a key that is cleared leaves the
    others in their order. *)
Definition keysAfter (k : string) (v : option string) (ks : list string)
  : list string :=
  if truthy v
  then (if existsb (String.eqb k) ks then ks else ks ++ [k])
  else filter (fun k' => negb (k' =? k)) ks.

(** Well-formed strings: the octets are the UTF-8 form of a sequence of code
    points, read with the automaton of [decode_from]. These are the strings
    of JavaScript with no lone surrogate, and the ones a percent escape can
    decode to. *)
Fixpoint utf8_from (pending lo hi : nat) (s : string) : bool :=
  match s with
  | EmptyString => Nat.eqb pending 0
  | String c r =>
      match pending with
      | 0 =>
          if Nat.ltb (code c) 128 then utf8_from 0 0 0 r
          else match utf8_lead (code c) with
               | Some (n, lo', hi') => utf8_from n lo' hi' r
               | None => false
               end
      | S p => between lo hi (code c) && utf8_from p 128 191 r
      end
  end.

Definition wellFormed (s : string) : bool := utf8_from 0 0 0 s.

(** Parameters that survive being written and read: well-formed keys and
    values, and no [=] in a key. *)
Definition writableKey (k : string) : bool :=
  wellFormed k && negb (mem_ascii "=" k).

Definition writableEntry (kv : string * list string) : bool :=
  writableKey (fst kv) && forallb wellFormed (snd kv).

Definition writableMap (m : JsMap (list string)) : bool :=
  forallb writableEntry m.

Definition writableUpdate (kv : string * option string) : bool :=
  writableKey (fst kv) && wellFormed (orEmpty (snd kv)).

(** The id a fragment command carries is well-formed (null is). *)
Definition writableCommand (c : Command) : bool :=
  match c with
  | SetFeatureId id | SetObservationId id => wellFormed (orEmpty id)
  | SetLayerId id => wellFormed id
  | _ => true
  end.

(** The output of [standardEncoding] taken character by character: what is
    written for one character is the character itself or an escape. *)
Inductive Token : Type :=
| Lit (c : ascii)
| Esc (a b : ascii).

Definition render1 (t : Token) : string :=
  match t with
  | Lit c => String c EmptyString
  | Esc a b => String "%" (String a (String b EmptyString))
  end.

Fixpoint render (ts : list Token) : string :=
  match ts with
  | [] => EmptyString
  | t :: rest => (render1 t ++ render rest)%string
  end.

Fixpoint tokensWith (f : ascii -> Token) (s : string) : list Token :=
  match s with
  | EmptyString => []
  | String c r => f c :: tokensWith f r
  end.

Definition escapeToken (c : ascii) : Token :=
  if uriUnescaped c then Lit c
  else Esc (hexchar (code c / 16)) (hexchar (code c mod 16)).

Definition unescapeToken (h1 h2 r : ascii) (t : Token) : Token :=
  match t with
  | Esc a b => if eqb_ci a h1 && eqb_ci b h2 then Lit r else t
  | Lit _ => t
  end.

Definition standardToken (c : ascii) : Token :=
  unescapeToken "2" "F" "/"
    (unescapeToken "3" "F" "?"
      (unescapeToken "3" "D" "="
        (unescapeToken "2" "B" "+"
          (unescapeToken "3" "B" ";"
            (unescapeToken "2" "C" ","
              (unescapeToken "2" "4" "$"
                (unescapeToken "3" "A" ":"
                  (unescapeToken "4" "0" "@" (escapeToken c))))))))).

Definition tokenOk (t : Token) : bool :=
  match t with
  | Lit c => negb (Ascii.eqb c "%")
  | Esc a b => negb (Ascii.eqb a "%") && negb (Ascii.eqb b "%")
  end.

(** A token stands for the character [c]: the character itself, an ASCII
    one that is not the percent sign, or the escape of its octet. *)
Definition tokenDecodes (c : ascii) (t : Token) : bool :=
  match t with
  | Lit c' => Ascii.eqb c' c && negb (Ascii.eqb c "%") && Nat.ltb (code c) 128
  | Esc a b =>
      match hexval a, hexval b with
      | Some x, Some y => Nat.eqb (16 * x + y) (code c)
      | _, _ => false
      end
  end.

(** The [key=value] pieces of a map as [toString] writes them, encoded. *)
Definition encodedPieces (m : JsMap (list string)) : list string :=
  concat (map (fun kv =>
                 map (fun v => (standardEncoding (fst kv) ++ "="
                                ++ standardEncoding v)%string) (snd kv)) m).

(** * Properties *)

(** ** The model on the inputs of the specification *)

Example parse_ex :
  HttpParams_fromString "f=abc&o=x%2Fy&q" =
  Ok {| pmap := [("f", ["abc"]); ("o", ["x/y"]); ("q", [EmptyString])] |}.
Proof. reflexivity. Qed.

Example toString_ex :
  HttpParams_toString
    {| pmap := [("f", ["a b"; "c&d"]); ("o=", ["x/y"]); ("p", ["%"])] |} =
  "f=a%20b&f=c%26d&o==x/y&p=%25".
Proof. reflexivity. Qed.

Example decode_ex_euro : decodeURIComponent "%41%e2%82%ac" =
  Ok (String "A" (String (ascii_of_nat 226) (String (ascii_of_nat 130)
       (String (ascii_of_nat 172) EmptyString)))).
Proof. reflexivity. Qed.

Example decode_ex_truncated : decodeURIComponent "%C3" = Throw URIError.
Proof. reflexivity. Qed.

Example decode_ex_overlong : decodeURIComponent "%C0%80" = Throw URIError.
Proof. reflexivity. Qed.

Example decode_ex_surrogate : decodeURIComponent "%ED%A0%80" = Throw URIError.
Proof. reflexivity. Qed.

Example decode_ex_percent : decodeURIComponent "100%" = Throw URIError.
Proof. reflexivity. Qed.

Example decode_ex_plus : decodeURIComponent "a+b%2Bc" = Ok "a+b+c".
Proof. reflexivity. Qed.

Example setFeature_ex1 :
  requestedOf (setFeatureId (Some "def")
                 (serviceAt (Some "project/p1") (Some "f=abc&o=xyz"))) =
  Some (Navigate ["project/p1"]
          {| extras_fragment := Some "f=def"; replaceUrl := None |}).
Proof. reflexivity. Qed.

Example setFeature_ex2 :
  requestedOf (setFeatureId None
                 (serviceAt (Some "project/p1") (Some "f=abc&o=xyz"))) =
  Some (Navigate ["project/p1"] noExtras).
Proof. reflexivity. Qed.

Example setLayer_ex :
  requestedOf (setLayerId "q"
                 (serviceAt (Some "project/p1") (Some "f=abc&o=xyz"))) =
  Some (Navigate ["project/p1"]
          {| extras_fragment := Some "f=abc&o=xyz&l=q"; replaceUrl := None |}).
Proof. reflexivity. Qed.

Example editObservation_ex :
  requestedOf (editObservation (Some "O3")
                 (serviceAt (Some "project/p1") (Some "l=L1&f=F2&o=O1"))) =
  Some (Navigate ["project/p1"]
          {| extras_fragment := Some "l=L1&f=F2"; replaceUrl := None |}).
Proof. reflexivity. Qed.

Example scenario_ex :
  requestedOf (setFeatureId (Some "F2")
                 (serviceAt (Some "project/p1") (Some "l=L1"))) =
  Some (Navigate ["project/p1"]
          {| extras_fragment := Some "l=L1&f=F2"; replaceUrl := None |})
  /\ requestedOf (setObservationId (Some "O3")
                 (serviceAt (Some "project/p1") (Some "l=L1&f=F2"))) =
  Some (Navigate ["project/p1"]
          {| extras_fragment := Some "l=L1&f=F2&o=O3"; replaceUrl := None |})
  /\ requestedOf (setFeatureId (Some "F9")
                 (serviceAt (Some "project/p1") (Some "l=L1&f=F2&o=O3"))) =
  Some (Navigate ["project/p1"]
          {| extras_fragment := Some "l=L1&f=F9"; replaceUrl := None |}).
Proof. repeat split; reflexivity. Qed.

Example root_url_ex :
  setLayerId "q" (serviceAt None (Some "f=abc")) = Throw TypeError.
Proof. reflexivity. Qed.

Example malformed_ex :
  setLayerId "q" (serviceAt (Some "project/p1") (Some "f=100%")) =
  Throw URIError.
Proof. reflexivity. Qed.

(** ** Strings *)

Lemma mem_ascii_app c s t :
  mem_ascii c (s ++ t)%string = mem_ascii c s || mem_ascii c t.
Proof.
  induction s as [|d s IH]; simpl; [reflexivity|].
  rewrite IH. now rewrite orb_assoc.
Qed.

Lemma unescaped_not_mem c s :
  uriUnescaped c = false -> urlSafe s = true -> mem_ascii c s = false.
Proof.
  intros Hc. induction s as [|d s IH]; simpl; [reflexivity|].
  intros H. apply andb_true_iff in H as [Hd Hs].
  rewrite (IH Hs), orb_false_r.
  apply Ascii.eqb_neq. intros ->. congruence.
Qed.

Lemma urlSafe_no_percent s : urlSafe s = true -> mem_ascii "%" s = false.
Proof. now apply unescaped_not_mem. Qed.

Lemma urlSafe_no_amp s : urlSafe s = true -> mem_ascii "&" s = false.
Proof. now apply unescaped_not_mem. Qed.

Lemma urlSafe_no_eq s : urlSafe s = true -> mem_ascii "=" s = false.
Proof. now apply unescaped_not_mem. Qed.

Lemma encodeURIComponent_urlSafe s :
  urlSafe s = true -> encodeURIComponent s = s.
Proof.
  induction s as [|c s IH]; simpl; [reflexivity|].
  intros H. apply andb_true_iff in H as [Hc Hs].
  now rewrite Hc, (IH Hs).
Qed.

Lemma replaceEscape_no_percent h1 h2 r s :
  mem_ascii "%" s = false -> replaceEscape h1 h2 r s = s.
Proof.
  induction s as [|c s IH]; [reflexivity|].
  intros H. simpl in H. apply orb_false_iff in H as [Hc Hs].
  specialize (IH Hs).
  assert (Hc' : Ascii.eqb c "%" = false)
    by (rewrite Ascii.eqb_sym; exact Hc).
  cbn [replaceEscape]. rewrite Hc'. cbn [andb].
  destruct s as [|a [|b rest]]; now rewrite ?IH.
Qed.

Lemma standardEncoding_urlSafe s : urlSafe s = true -> standardEncoding s = s.
Proof.
  intros H. unfold standardEncoding.
  rewrite (encodeURIComponent_urlSafe s H).
  pose proof (urlSafe_no_percent s H) as Hp.
  repeat match goal with
    | |- context [replaceEscape ?a ?b ?c s] =>
        rewrite (replaceEscape_no_percent a b c s Hp)
    end.
  reflexivity.
Qed.

Lemma decode_no_percent s :
  mem_ascii "%" s = false -> decodeURIComponent s = Ok s.
Proof.
  unfold decodeURIComponent.
  induction s as [|c s IH]; [reflexivity|].
  intros H. cbn [mem_ascii] in H. apply orb_false_iff in H as [Hc Hs].
  cbn [decode_from]. rewrite (Ascii.eqb_sym c), Hc, (IH Hs). reflexivity.
Qed.

Lemma decodeURIComponent_urlSafe s :
  urlSafe s = true -> decodeURIComponent s = Ok s.
Proof. intros H. apply decode_no_percent, urlSafe_no_percent, H. Qed.

Lemma indexOf_app c k rest :
  mem_ascii c k = false ->
  indexOf c (k ++ String c rest) = Some (String.length k).
Proof.
  induction k as [|d k IH]; simpl.
  - now rewrite Ascii.eqb_refl.
  - intros H. apply orb_false_iff in H as [Hd Hk].
    rewrite Ascii.eqb_sym, Hd, (IH Hk). reflexivity.
Qed.

Lemma indexOf_none c s : mem_ascii c s = false -> indexOf c s = None.
Proof.
  induction s as [|d s IH]; simpl; [reflexivity|].
  intros H. apply orb_false_iff in H as [Hd Hs].
  now rewrite Ascii.eqb_sym, Hd, (IH Hs).
Qed.

Lemma take_app k rest : take (String.length k) (k ++ rest) = k.
Proof.
  induction k as [|d k IH]; simpl.
  - now destruct rest.
  - now rewrite IH.
Qed.

Lemma drop_app k c rest :
  drop (String.length k + 1) (k ++ String c rest) = rest.
Proof. induction k as [|d k IH]; simpl; [reflexivity | exact IH]. Qed.

Lemma split_no_sep sep s : mem_ascii sep s = false -> split sep s = [s].
Proof.
  induction s as [|c s IH]; simpl; [reflexivity|].
  intros H. apply orb_false_iff in H as [Hc Hs].
  now rewrite Ascii.eqb_sym, Hc, (IH Hs).
Qed.

Lemma split_app sep s t :
  mem_ascii sep s = false ->
  split sep (s ++ String sep t) = s :: split sep t.
Proof.
  induction s as [|c s IH]; simpl.
  - now rewrite Ascii.eqb_refl.
  - intros H. apply orb_false_iff in H as [Hc Hs].
    now rewrite Ascii.eqb_sym, Hc, (IH Hs).
Qed.

Lemma split_join sep pieces :
  pieces <> [] ->
  Forall (fun s => mem_ascii sep s = false) pieces ->
  split sep (join (String sep EmptyString) pieces) = pieces.
Proof.
  induction pieces as [|x rest IH]; [congruence|].
  intros _ H. inversion H as [|? ? Hx Hrest]; subst.
  destruct rest as [|y rest'].
  - simpl. now apply split_no_sep.
  - cbn [join]. cbn [append]. rewrite split_app by exact Hx.
    f_equal. apply IH; [discriminate | exact Hrest].
Qed.

Lemma split_not_nil sep s : split sep s <> [].
Proof.
  destruct s as [|c s]; simpl; [discriminate|].
  destruct (Ascii.eqb c sep); [discriminate|].
  destruct (split sep s); discriminate.
Qed.

Lemma string_app_assoc (s t u : string) :
  ((s ++ t) ++ u = s ++ (t ++ u))%string.
Proof. induction s as [|c s IH]; simpl; [reflexivity | now rewrite IH]. Qed.

Lemma mem_not_empty c s : mem_ascii c s = true -> (s =? "") = false.
Proof. destruct s; simpl; [discriminate | reflexivity]. Qed.

(** ** JavaScript maps *)

Section MapFacts.
Context {V : Type}.
Implicit Types (m : JsMap V) (k : string) (v : V).

Lemma Map_get_notin k m : ~ In k (Map_keys m) -> Map_get k m = None.
Proof.
  induction m as [|[k' v'] m IH]; simpl; [reflexivity|].
  intros H. destruct (String.eqb_spec k' k) as [->|Hne].
  - exfalso. apply H. now left.
  - apply IH. intros Hin. apply H. now right.
Qed.

Lemma Map_get_keys k v m : Map_get k m = Some v -> In k (Map_keys m).
Proof.
  induction m as [|[k' v'] m IH]; simpl; [discriminate|].
  destruct (String.eqb_spec k' k) as [->|Hne]; [now left|].
  intros H. right. now apply IH.
Qed.

Lemma Map_get_In k v m :
  NoDup (Map_keys m) -> In (k, v) m -> Map_get k m = Some v.
Proof.
  induction m as [|[k' v'] m IH]; simpl; [contradiction|].
  intros Hnd [Heq|Hin].
  - inversion Heq; subst. now rewrite String.eqb_refl.
  - inversion Hnd as [|? ? Hk Hnd']; subst.
    destruct (String.eqb_spec k' k) as [->|Hne].
    + exfalso. apply Hk. change k with (fst (k, v)). now apply in_map.
    + now apply IH.
Qed.

Lemma Map_set_notin k v m :
  ~ In k (Map_keys m) -> Map_set k v m = m ++ [(k, v)].
Proof.
  induction m as [|[k' v'] m IH]; simpl; [reflexivity|].
  intros H. destruct (String.eqb_spec k' k) as [->|Hne].
  - exfalso. apply H. now left.
  - f_equal. apply IH. intros Hin. apply H. now right.
Qed.

Lemma Map_get_last k v m :
  ~ In k (Map_keys m) -> Map_get k (m ++ [(k, v)]) = Some v.
Proof.
  induction m as [|[k' v'] m IH]; simpl.
  - now rewrite String.eqb_refl.
  - intros H. destruct (String.eqb_spec k' k) as [->|Hne].
    + exfalso. apply H. now left.
    + apply IH. intros Hin. apply H. now right.
Qed.

Lemma Map_set_last k v v' m :
  ~ In k (Map_keys m) -> Map_set k v' (m ++ [(k, v)]) = m ++ [(k, v')].
Proof.
  induction m as [|[k' v0] m IH]; simpl.
  - now rewrite String.eqb_refl.
  - intros H. destruct (String.eqb_spec k' k) as [->|Hne].
    + exfalso. apply H. now left.
    + f_equal. apply IH. intros Hin. apply H. now right.
Qed.

Lemma Map_get_set_eq k v m : Map_get k (Map_set k v m) = Some v.
Proof.
  induction m as [|[k' v'] m IH]; simpl.
  - now rewrite String.eqb_refl.
  - destruct (String.eqb_spec k' k) as [->|Hne]; simpl.
    + now rewrite String.eqb_refl.
    + apply String.eqb_neq in Hne. now rewrite Hne.
Qed.

Lemma Map_get_set_neq k k' v m :
  k' <> k -> Map_get k' (Map_set k v m) = Map_get k' m.
Proof.
  intros Hne. induction m as [|[k0 v0] m IH]; simpl.
  - apply not_eq_sym, String.eqb_neq in Hne. now rewrite Hne.
  - destruct (String.eqb_spec k0 k) as [->|Hne0]; simpl.
    + apply not_eq_sym, String.eqb_neq in Hne. now rewrite Hne.
    + now rewrite IH.
Qed.

Lemma Map_get_delete_neq k k' m :
  k' <> k -> Map_get k' (Map_delete k m) = Map_get k' m.
Proof.
  intros Hne. induction m as [|[k0 v0] m IH]; simpl; [reflexivity|].
  destruct (String.eqb_spec k0 k) as [->|Hne0]; simpl.
  - apply not_eq_sym, String.eqb_neq in Hne. now rewrite Hne.
  - now rewrite IH.
Qed.

Lemma Map_keys_delete k k' m :
  In k' (Map_keys (Map_delete k m)) -> In k' (Map_keys m).
Proof.
  induction m as [|[k0 v0] m IH]; simpl; [tauto|].
  destruct (String.eqb_spec k0 k) as [->|Hne0]; simpl; [tauto|].
  intros [H|H]; [now left | right; now apply IH].
Qed.

Lemma Map_get_delete_eq k m :
  NoDup (Map_keys m) -> Map_get k (Map_delete k m) = None.
Proof.
  induction m as [|[k0 v0] m IH]; simpl; [reflexivity|].
  intros Hnd. inversion Hnd as [|? ? Hk Hnd']; subst.
  destruct (String.eqb_spec k0 k) as [->|Hne0]; simpl.
  - now apply Map_get_notin.
  - apply String.eqb_neq in Hne0. rewrite Hne0. now apply IH.
Qed.

Lemma Map_keys_set k k' v m :
  In k' (Map_keys (Map_set k v m)) -> k' = k \/ In k' (Map_keys m).
Proof.
  induction m as [|[k0 v0] m IH]; simpl.
  - intros [H|[]]. now left.
  - destruct (String.eqb_spec k0 k) as [->|Hne0]; simpl.
    + tauto.
    + intros [H|H]; [tauto|]. destruct (IH H); tauto.
Qed.

Lemma NoDup_Map_set k v m :
  NoDup (Map_keys m) -> NoDup (Map_keys (Map_set k v m)).
Proof.
  induction m as [|[k0 v0] m IH]; simpl.
  - intros _. constructor; [tauto | constructor].
  - intros Hnd. inversion Hnd as [|? ? Hk Hnd']; subst.
    destruct (String.eqb_spec k0 k) as [->|Hne0]; simpl.
    + now constructor.
    + constructor; [|now apply IH].
      intros Hin. apply Map_keys_set in Hin as [->|Hin]; tauto.
Qed.

Lemma NoDup_Map_delete k m :
  NoDup (Map_keys m) -> NoDup (Map_keys (Map_delete k m)).
Proof.
  induction m as [|[k0 v0] m IH]; simpl; [tauto|].
  intros Hnd. inversion Hnd as [|? ? Hk Hnd']; subst.
  destruct (String.eqb_spec k0 k) as [->|Hne0]; simpl; [assumption|].
  constructor; [|now apply IH].
  intros Hin. now apply Map_keys_delete in Hin.
Qed.

Lemma Map_set_not_nil k v m : Map_set k v m <> [].
Proof.
  destruct m as [|[k0 v0] m]; simpl; [discriminate|].
  destruct (k0 =? k); discriminate.
Qed.
End MapFacts.

Lemma distinct_NoDup ks : distinct ks = true <-> NoDup ks.
Proof.
  induction ks as [|k ks IH]; simpl.
  - split; [constructor | reflexivity].
  - rewrite andb_true_iff, negb_true_iff, IH. split.
    + intros [Hk Hnd]. constructor; [|assumption].
      intros Hin. assert (existsb (String.eqb k) ks = true); [|congruence].
      apply existsb_exists. exists k. split; [assumption|].
      apply String.eqb_refl.
    + intros Hnd. inversion Hnd as [|? ? Hk Hnd']; subst.
      split; [|assumption].
      destruct (existsb (String.eqb k) ks) eqn:E; [|reflexivity].
      apply existsb_exists in E as [x [Hin Hx]].
      apply String.eqb_eq in Hx. subst. contradiction.
Qed.

(** ** The codec on URL-safe maps *)

Lemma parseParam_pair acc k v :
  urlSafe k = true -> urlSafe v = true ->
  parseParam acc (k ++ "=" ++ v) = Ok (Map_set k (valuesOr k acc ++ [v]) acc).
Proof.
  intros Hk Hv. unfold parseParam, valuesOr. cbn [append].
  rewrite indexOf_app by now apply urlSafe_no_eq.
  rewrite take_app, drop_app. cbn [decodeKey decodeValue HttpUrlEncodingCodec].
  rewrite (decodeURIComponent_urlSafe k Hk), (decodeURIComponent_urlSafe v Hv).
  reflexivity.
Qed.

Lemma parseParams_values k vs2 : forall acc vs1 rest,
  ~ In k (Map_keys acc) ->
  urlSafe k = true -> forallb urlSafe vs2 = true ->
  parseParams (acc ++ [(k, vs1)])
              (map (fun v => (k ++ "=" ++ v)%string) vs2 ++ rest) =
  parseParams (acc ++ [(k, vs1 ++ vs2)]) rest.
Proof.
  induction vs2 as [|v vs2 IH]; intros acc vs1 rest Hk Hsk Hsv.
  - now rewrite app_nil_r.
  - cbn [forallb] in Hsv. apply andb_true_iff in Hsv as [Hv Hvs].
    cbn [map app parseParams].
    rewrite parseParam_pair by assumption. unfold valuesOr.
    rewrite Map_get_last, Map_set_last by assumption. cbn [bind].
    rewrite IH by assumption. now rewrite <- app_assoc.
Qed.

Lemma parseParams_pieces m : forall acc,
  NoDup (Map_keys acc ++ Map_keys m) ->
  forallb hasValues m = true -> urlSafeMap m = true ->
  parseParams acc (pieces m) = Ok (acc ++ m).
Proof.
  induction m as [|[k vs] m IH]; intros acc Hnd Hv Hs.
  - now rewrite app_nil_r.
  - cbn [forallb] in Hv, Hs. apply andb_true_iff in Hv as [Hvs Hv].
    apply andb_true_iff in Hs as [Hkv Hs].
    unfold urlSafeEntry in Hkv. cbn [fst snd] in Hkv.
    apply andb_true_iff in Hkv as [Hsk Hsv].
    destruct vs as [|v vs]; [discriminate|].
    cbn [forallb] in Hsv. apply andb_true_iff in Hsv as [Hsv0 Hsv].
    assert (Hk : ~ In k (Map_keys acc)).
    { cbn [Map_keys map fst] in Hnd. apply NoDup_remove_2 in Hnd.
      intros Hin. apply Hnd, in_or_app. now left. }
    unfold pieces. cbn [map concat fst snd]. fold (pieces m).
    cbn [app parseParams]. rewrite parseParam_pair by assumption.
    unfold valuesOr. rewrite (Map_get_notin k acc Hk), (Map_set_notin k _ acc Hk).
    cbn [bind app]. rewrite parseParams_values by assumption.
    rewrite IH; try assumption.
    + now rewrite <- app_assoc.
    + unfold Map_keys in *. rewrite map_app. cbn [map fst].
      rewrite <- app_assoc. exact Hnd.
Qed.

Lemma join_app sep l1 l2 :
  l1 <> [] -> l2 <> [] ->
  join sep (l1 ++ l2) = (join sep l1 ++ sep ++ join sep l2)%string.
Proof.
  intros H1 H2. induction l1 as [|x l1 IH]; [congruence|].
  destruct l1 as [|y l1].
  - cbn [app join]. destruct l2; [congruence | reflexivity].
  - change ((x :: y :: l1) ++ l2) with (x :: ((y :: l1) ++ l2)).
    cbn [join app]. cbn [join app] in IH. rewrite IH by discriminate.
    now rewrite !string_app_assoc.
Qed.

Lemma join_concat sep ls :
  Forall (fun l => l <> []) ls ->
  join sep (map (join sep) ls) = join sep (concat ls).
Proof.
  induction ls as [|l ls IH]; [reflexivity|].
  intros H. inversion H as [|? ? Hl Hls]; subst. specialize (IH Hls).
  destruct ls as [|l' ls].
  - cbn [map join concat]. now rewrite app_nil_r.
  - cbn [concat]. rewrite join_app; [| assumption |].
    + change (map (join sep) (l :: l' :: ls))
        with (join sep l :: map (join sep) (l' :: ls)).
      cbn [join map]. cbn [join map concat] in IH. now rewrite IH.
    + inversion Hls; subst. destruct l'; [congruence | discriminate].
Qed.

Lemma pieces_have_eq m : Forall (fun s => mem_ascii "=" s = true) (pieces m).
Proof.
  induction m as [|[k vs] m IH]; [constructor|].
  unfold pieces. cbn [map concat fst snd]. fold (pieces m).
  apply Forall_app. split; [|exact IH].
  apply Forall_forall. intros s Hin. apply in_map_iff in Hin as [v [<- _]].
  rewrite mem_ascii_app. cbn [append mem_ascii].
  rewrite Ascii.eqb_refl. cbn. apply orb_true_r.
Qed.

Lemma pieces_no_amp m :
  urlSafeMap m = true -> Forall (fun s => mem_ascii "&" s = false) (pieces m).
Proof.
  induction m as [|[k vs] m IH]; [constructor|].
  intros Hs. cbn [urlSafeMap forallb] in Hs.
  apply andb_true_iff in Hs as [Hkv Hs]. unfold urlSafeEntry in Hkv.
  cbn [fst snd] in Hkv. apply andb_true_iff in Hkv as [Hsk Hsv].
  unfold pieces. cbn [map concat fst snd]. fold (pieces m).
  apply Forall_app. split; [|now apply IH].
  apply Forall_forall. intros s Hin. apply in_map_iff in Hin as [v [<- Hv]].
  rewrite !mem_ascii_app, (urlSafe_no_amp k Hsk).
  rewrite forallb_forall in Hsv. rewrite (urlSafe_no_amp v (Hsv v Hv)).
  reflexivity.
Qed.

Lemma join_has_eq sep l :
  l <> [] -> Forall (fun s => mem_ascii "=" s = true) l ->
  mem_ascii "=" (join sep l) = true.
Proof.
  intros Hl H. destruct l as [|x l]; [congruence|].
  inversion H as [|? ? Hx _]; subst.
  destruct l; cbn [join]; [assumption|].
  now rewrite mem_ascii_app, Hx.
Qed.

Lemma toString_pieces p :
  Map_wf (pmap p) = true -> urlSafeMap (pmap p) = true ->
  HttpParams_toString p = join "&" (pieces (pmap p)).
Proof.
  destruct p as [m]. cbn [pmap]. intros Hwf Hs.
  unfold Map_wf in Hwf. apply andb_true_iff in Hwf as [Hd Hv].
  apply distinct_NoDup in Hd.
  unfold HttpParams_toString, HttpParams_keys, Map_keys. cbn [pmap].
  set (line := fun kv : string * list string =>
                 map (fun v => (fst kv ++ "=" ++ v)%string) (snd kv)).
  match goal with
  | |- join _ (filter _ ?L) = _ =>
      assert (Hmap : L = map (join "&") (map line m))
  end.
  { rewrite !map_map. apply map_ext_in. intros [k vs] Hin. cbn [fst snd].
    rewrite (Map_get_In k vs m Hd Hin).
    unfold urlSafeMap in Hs. rewrite forallb_forall in Hs.
    specialize (Hs _ Hin). unfold urlSafeEntry in Hs. cbn [fst snd] in Hs.
    apply andb_true_iff in Hs as [Hsk Hsv].
    cbn [encodeKey encodeValue HttpUrlEncodingCodec].
    rewrite (standardEncoding_urlSafe k Hsk). unfold line. cbn [fst snd].
    f_equal. apply map_ext_in. intros v Hv'.
    rewrite forallb_forall in Hsv.
    now rewrite (standardEncoding_urlSafe v (Hsv v Hv')). }
  rewrite Hmap.
  assert (Hne : Forall (fun l => l <> []) (map line m)).
  { apply Forall_forall. intros l Hin. apply in_map_iff in Hin as [[k vs] [<- Hin]].
    rewrite forallb_forall in Hv. specialize (Hv _ Hin).
    unfold hasValues in Hv. cbn [snd] in Hv. unfold line. cbn [fst snd].
    destruct vs; [discriminate | discriminate]. }
  assert (Hfil : filter (fun param => negb (param =? ""))
                   (map (join "&") (map line m)) = map (join "&") (map line m)).
  { apply forallb_filter_id. apply forallb_forall. intros s Hin.
    apply in_map_iff in Hin as [l [<- Hin]].
    apply negb_true_iff, (mem_not_empty "=").
    apply join_has_eq.
    - rewrite Forall_forall in Hne. now apply Hne.
    - apply in_map_iff in Hin as [[k vs] [<- Hin]].
      pose proof (pieces_have_eq [(k, vs)]) as Hp.
      unfold pieces in Hp. cbn [map concat] in Hp. rewrite app_nil_r in Hp.
      exact Hp. }
  rewrite Hfil. rewrite join_concat by exact Hne. reflexivity.
Qed.

Lemma pieces_not_nil kv m :
  hasValues kv = true -> pieces (kv :: m) <> [].
Proof.
  destruct kv as [k [|v vs]]; [discriminate|]. intros _.
  unfold pieces. cbn [map concat fst snd app]. discriminate.
Qed.

Lemma paramParser_pieces m :
  Map_wf m = true -> urlSafeMap m = true ->
  HttpParams_fromString (join "&" (pieces m)) = Ok {| pmap := m |}.
Proof.
  intros Hwf Hs. pose proof Hwf as Hwf'. unfold Map_wf in Hwf'.
  apply andb_true_iff in Hwf' as [Hd Hv]. apply distinct_NoDup in Hd.
  destruct m as [|kv m'] eqn:E; [reflexivity|]. rewrite <- E in *.
  assert (Hne : pieces m <> []).
  { subst m. apply pieces_not_nil. cbn [forallb] in Hv.
    now apply andb_true_iff in Hv as [Hv _]. }
  assert (Heq : mem_ascii "=" (join "&" (pieces m)) = true)
    by (apply join_has_eq; [exact Hne | apply pieces_have_eq]).
  unfold HttpParams_fromString, paramParser.
  rewrite (mem_not_empty _ _ Heq). cbn [negb].
  destruct (join "&" (pieces m)) as [|c s] eqn:Ej; [discriminate|].
  cbn [String.length Nat.ltb Nat.leb]. rewrite <- Ej.
  rewrite split_join; [| exact Hne | now apply pieces_no_amp].
  rewrite parseParams_pieces; [reflexivity | exact Hd | exact Hv | exact Hs].
Qed.

Lemma toString_fromString p :
  Map_wf (pmap p) = true -> urlSafeMap (pmap p) = true ->
  HttpParams_fromString (HttpParams_toString p) = Ok p.
Proof.
  intros Hwf Hs. rewrite toString_pieces by assumption.
  destruct p as [m]. now apply paramParser_pieces.
Qed.

(** C1. Round trip of the fragment codec: for every map of parameters whose
    keys occur once with at least one value each (a FragmentMap has exactly
    one) and whose keys and values are URL-safe strings, parsing with
    [new HttpParams({fromString})] the string that [toString] writes gives the
    same map back, keys and values in the same order. *)
Theorem fragment_round_trip (p : HttpParams) :
  Map_wf (pmap p) = true -> urlSafeMap (pmap p) = true ->
  HttpParams_fromString (HttpParams_toString p) = Ok p.
Proof. exact (toString_fromString p). Qed.

Lemma fragment_round_trip_witness :
  let p := {| pmap := [("l", ["L1"]); ("f", ["F2"]); ("o", ["O3"; "new"])] |} in
  HttpParams_toString p = "l=L1&f=F2&o=O3&o=new"
  /\ HttpParams_fromString (HttpParams_toString p) = Ok p.
Proof.
  split; [reflexivity|].
  apply (fragment_round_trip
           {| pmap := [("l", ["L1"]); ("f", ["F2"]); ("o", ["O3"; "new"])] |});
    reflexivity.
Defined.

(** ** Invariant of the parameters *)

Lemma hasValues_Map_set k vs m :
  vs <> [] -> forallb hasValues m = true ->
  forallb hasValues (Map_set k vs m) = true.
Proof.
  intros Hvs. induction m as [|[k0 v0] m IH]; cbn [Map_set forallb].
  - intros _. destruct vs; [congruence | reflexivity].
  - intros H. apply andb_true_iff in H as [H0 Hm].
    destruct (k0 =? k); cbn [forallb].
    + rewrite Hm. destruct vs; [congruence | reflexivity].
    + now rewrite H0, IH.
Qed.

Lemma hasValues_Map_delete k m :
  forallb hasValues m = true -> forallb hasValues (Map_delete k m) = true.
Proof.
  induction m as [|[k0 v0] m IH]; cbn [Map_delete forallb]; [reflexivity|].
  intros H. apply andb_true_iff in H as [H0 Hm].
  destruct (k0 =? k); cbn [forallb]; [assumption|]. now rewrite H0, IH.
Qed.

Lemma Map_wf_iff m :
  Map_wf m = true <-> NoDup (Map_keys m) /\ forallb hasValues m = true.
Proof. unfold Map_wf. now rewrite andb_true_iff, distinct_NoDup. Qed.

Lemma Map_wf_set k v m : Map_wf m = true -> Map_wf (Map_set k [v] m) = true.
Proof.
  rewrite !Map_wf_iff. intros [Hd Hv]. split.
  - now apply NoDup_Map_set.
  - now apply hasValues_Map_set.
Qed.

Lemma Map_wf_delete k m : Map_wf m = true -> Map_wf (Map_delete k m) = true.
Proof.
  rewrite !Map_wf_iff. intros [Hd Hv]. split.
  - now apply NoDup_Map_delete.
  - now apply hasValues_Map_delete.
Qed.

Lemma parseParam_shape acc param acc' :
  parseParam acc param = Ok acc' ->
  exists k v, acc' = Map_set k (valuesOr k acc ++ [v]) acc.
Proof.
  unfold parseParam, valuesOr. intros H.
  destruct (indexOf "=" param) as [i|].
  - destruct (decodeKey (take i param)) as [k|]; [|discriminate].
    destruct (decodeValue (drop (i + 1) param)) as [v|]; [|discriminate].
    cbn [bind fst snd] in H. inversion H. now exists k, v.
  - destruct (decodeKey param) as [k|]; [|discriminate].
    cbn [bind fst snd] in H. inversion H. now exists k, EmptyString.
Qed.

Lemma parseParams_wf params : forall acc m,
  Map_wf acc = true -> parseParams acc params = Ok m -> Map_wf m = true.
Proof.
  induction params as [|param params IH]; intros acc m Hwf H.
  - cbn in H. now inversion H; subst.
  - cbn [parseParams] in H.
    destruct (parseParam acc param) as [acc'|] eqn:E; [|discriminate].
    cbn [bind] in H. apply (IH acc'); [|exact H].
    apply parseParam_shape in E as [k [v ->]].
    apply Map_wf_iff in Hwf as [Hd Hv]. apply Map_wf_iff. split.
    + now apply NoDup_Map_set.
    + apply hasValues_Map_set; [|assumption].
      destruct (valuesOr k acc); discriminate.
Qed.

Lemma parseParams_not_nil params : forall acc m,
  parseParams acc params = Ok m -> acc <> [] \/ params <> [] -> m <> [].
Proof.
  induction params as [|param params IH]; intros acc m H Hne.
  - cbn in H. inversion H; subst. destruct Hne; congruence.
  - cbn [parseParams] in H.
    destruct (parseParam acc param) as [acc'|] eqn:E; [|discriminate].
    cbn [bind] in H. apply (IH acc'); [exact H|]. left.
    apply parseParam_shape in E as [k [v ->]]. apply Map_set_not_nil.
Qed.

Lemma fromString_wf s p :
  HttpParams_fromString s = Ok p -> Map_wf (pmap p) = true.
Proof.
  unfold HttpParams_fromString, paramParser. intros H.
  destruct (negb (s =? "")); [|now inversion H].
  destruct (Nat.ltb 0 (String.length s)).
  - destruct (parseParams [] (split "&" s)) as [m|] eqn:E; [|discriminate].
    cbn [bind] in H. inversion H; subst. cbn [pmap].
    apply (parseParams_wf (split "&" s) [] m); [reflexivity | exact E].
  - cbn [bind] in H. now inversion H.
Qed.

Lemma applyUpdate_wf p kv :
  Map_wf (pmap p) = true -> Map_wf (pmap (applyUpdate p kv)) = true.
Proof.
  intros H. destruct kv as [k v]. unfold applyUpdate.
  destruct (truthy v); cbn [HttpParams_set HttpParams_delete pmap].
  - now apply Map_wf_set.
  - now apply Map_wf_delete.
Qed.

Lemma applyUpdates_wf updates : forall p,
  Map_wf (pmap p) = true ->
  Map_wf (pmap (fold_left applyUpdate updates p)) = true.
Proof.
  induction updates as [|kv updates IH]; intros p H; [exact H|].
  cbn [fold_left]. now apply IH, applyUpdate_wf.
Qed.

Lemma truthy_get_selected k p : truthy (HttpParams_get k p) = selected k p.
Proof.
  unfold HttpParams_get, selected.
  destruct (Map_get k (pmap p)) as [[|v vs]|]; reflexivity.
Qed.

(** ** What a fragment command asks of the router *)

Lemma toString_not_empty p :
  forallb hasValues (pmap p) = true -> pmap p <> [] ->
  (HttpParams_toString p =? "") = false.
Proof.
  destruct p as [[|[k vs] m]]; cbn [pmap]; [congruence|].
  intros Hv _. cbn [forallb] in Hv. apply andb_true_iff in Hv as [Hvs _].
  destruct vs as [|v vs]; [discriminate|].
  apply (mem_not_empty "=").
  unfold HttpParams_toString, HttpParams_keys, Map_keys.
  cbn [pmap map fst Map_get]. rewrite String.eqb_refl.
  set (first := join "&" (map _ (v :: vs))).
  assert (Hf : mem_ascii "=" first = true).
  { subst first. cbn [map]. set (x := (_ ++ "=" ++ _)%string).
    assert (Hx : mem_ascii "=" x = true).
    { subst x. rewrite mem_ascii_app. cbn [append mem_ascii].
      rewrite Ascii.eqb_refl. cbn. apply orb_true_r. }
    destruct (map _ vs); cbn [join]; [exact Hx|].
    now rewrite mem_ascii_app, Hx. }
  cbn [filter]. rewrite (mem_not_empty _ _ Hf). cbn [negb].
  destruct (filter _ _); cbn [join]; [exact Hf|].
  now rewrite mem_ascii_app, Hf.
Qed.

Lemma setFragmentParams_target p this path :
  forallb hasValues (pmap p) = true ->
  primary (router this) = Some path ->
  setFragmentParams p this = Ok (Router_navigate [path] (targetExtras p) this).
Proof.
  intros Hv Hp. unfold setFragmentParams, targetExtras. rewrite Hp.
  cbn [bind]. destruct (pmap p) as [|kv m] eqn:E.
  - destruct p as [m0]. cbn [pmap] in E. subst m0. reflexivity.
  - rewrite toString_not_empty; [reflexivity | now rewrite E | congruence].
Qed.

Lemma run_fragment_command c this route m :
  fragmentCommand c = true ->
  activatedRoute this = Some route ->
  HttpParams_fromString (orEmpty (snapshot_fragment (snapshot route))) = Ok m ->
  run c this = setFragmentParams (nextParams c m) this.
Proof.
  intros Hc Hr Hm.
  assert (Hg : getFragmentParams this = Ok m)
    by (unfold getFragmentParams; rewrite Hr; exact Hm).
  destruct c; try discriminate; cbn [run];
    unfold setFeatureId, setObservationId, setLayerId, getObservationId,
      setFragmentParam, nextParams; rewrite Hg; cbn [bind commandUpdates].
  - unfold featureUpdates.
    destruct (truthy (HttpParams_get OBSERVATION_ID_FRAGMENT_PARAM m));
      reflexivity.
  - reflexivity.
  - reflexivity.
Qed.

Lemma applyUpdate_getAll k p kv :
  k <> fst kv ->
  HttpParams_getAll k (applyUpdate p kv) = HttpParams_getAll k p.
Proof.
  destruct kv as [k' v]. cbn [fst]. intros Hne.
  unfold applyUpdate, HttpParams_getAll.
  destruct (truthy v); cbn [HttpParams_set HttpParams_delete pmap].
  - now apply Map_get_set_neq.
  - now apply Map_get_delete_neq.
Qed.

Lemma applyUpdates_getAll k updates : forall p,
  ~ In k (map fst updates) ->
  HttpParams_getAll k (fold_left applyUpdate updates p) = HttpParams_getAll k p.
Proof.
  induction updates as [|kv updates IH]; intros p Hk; [reflexivity|].
  cbn [fold_left]. cbn [map] in Hk. rewrite IH.
  - apply applyUpdate_getAll. intros ->. apply Hk. now left.
  - intros Hin. apply Hk. now right.
Qed.

Lemma commandUpdates_keys c m k :
  In k (map fst (commandUpdates c m)) -> In k (updatedKeys c).
Proof.
  destruct c; cbn [commandUpdates updatedKeys map fst]; try tauto.
  unfold featureUpdates.
  destruct (truthy (HttpParams_get OBSERVATION_ID_FRAGMENT_PARAM m));
    cbn [map fst In]; tauto.
Qed.

Lemma HttpParams_has_delete k p :
  Map_wf (pmap p) = true -> HttpParams_has k (HttpParams_delete k p) = false.
Proof.
  intros Hwf. apply Map_wf_iff in Hwf as [Hd _].
  unfold HttpParams_has, Map_has, HttpParams_delete. cbn [pmap].
  now rewrite Map_get_delete_eq.
Qed.

(** ** Side-nav mode *)

(** C2, the claim as written fails: in the fragment [o=&f=y] the observation
    key is present, and the mode is FEATURE. *)
Lemma sideNavMode_present_but_empty :
  exists p,
    HttpParams_fromString "o=&f=y" = Ok p
    /\ HttpParams_has OBSERVATION_ID_FRAGMENT_PARAM p = true
    /\ fragmentParamsToSideNavMode p = FEATURE.
Proof. eexists. repeat split. Qed.

(** C2, amended. The side-nav mode is a function of the parameters alone, by
    precedence over the selected keys, a key being selected when its first
    value is not the empty string: OBSERVATION when the observation key is
    selected, else FEATURE when the feature key is, else LAYER_LIST, which is
    also the mode of the empty map. The four cases of the specification come
    out as it states them. *)
Theorem sideNavMode_precedence :
  (forall p, fragmentParamsToSideNavMode p = project p)
  /\ fragmentParamsToSideNavMode {| pmap := [] |} = LAYER_LIST
  /\ rmap fragmentParamsToSideNavMode (HttpParams_fromString "o=x&f=y&l=z")
     = Ok OBSERVATION
  /\ rmap fragmentParamsToSideNavMode (HttpParams_fromString "f=y&l=z")
     = Ok FEATURE
  /\ rmap fragmentParamsToSideNavMode (HttpParams_fromString "l=z")
     = Ok LAYER_LIST
  /\ rmap fragmentParamsToSideNavMode (HttpParams_fromString "")
     = Ok LAYER_LIST.
Proof.
  split; [|repeat split].
  intros p. unfold fragmentParamsToSideNavMode, project.
  now rewrite !truthy_get_selected.
Qed.

(** ** Cascade of setFeatureId *)

(** C3, the claim as written fails: from the fragment [f=abc&o=] the
    observation key is present, and [setFeatureId("def")] asks for the fragment
    [f=def&o=], where it still is. *)
Lemma setFeatureId_keeps_empty_observation :
  exists p p',
    HttpParams_fromString "f=abc&o=" = Ok p
    /\ HttpParams_has OBSERVATION_ID_FRAGMENT_PARAM p = true
    /\ requestedOf (setFeatureId (Some "def")
                      (serviceAt (Some "project/p1") (Some "f=abc&o=")))
       = Some (Navigate ["project/p1"]
                 {| extras_fragment := Some "f=def&o="; replaceUrl := None |})
    /\ HttpParams_fromString "f=def&o=" = Ok p'
    /\ HttpParams_has OBSERVATION_ID_FRAGMENT_PARAM p' = true.
Proof. do 2 eexists. repeat split. Qed.

(** C3, amended. When the current fragment decodes to parameters in which the
    observation key is selected (its first value is not the empty string),
    [setFeatureId], with an id or with null, hands [setFragmentParams]
    parameters that have no observation key, and the navigation it asks for
    is the one for these parameters. *)
Theorem setFeatureId_clears_observation
  (id : option string) (this : NavigationService) (route : ActivatedRoute)
  (m : HttpParams) (path : string) :
  activatedRoute this = Some route ->
  HttpParams_fromString (orEmpty (snapshot_fragment (snapshot route))) = Ok m ->
  primary (router this) = Some path ->
  selected OBSERVATION_ID_FRAGMENT_PARAM m = true ->
  let next := nextParams (SetFeatureId id) m in
  HttpParams_has OBSERVATION_ID_FRAGMENT_PARAM next = false
  /\ HttpParams_get FEATURE_ID_FRAGMENT_PARAM next
     = (if truthy id then id else None)
  /\ setFeatureId id this = setFragmentParams next this
  /\ setFeatureId id this
     = Ok (Router_navigate [path] (targetExtras next) this).
Proof.
  intros Hr Hm Hp Hsel next.
  pose proof (fromString_wf _ _ Hm) as Hwf.
  pose proof (run_fragment_command (SetFeatureId id) this route m
                eq_refl Hr Hm) as Hrun.
  cbn [run] in Hrun. fold next in Hrun.
  assert (Hnext : next = HttpParams_delete OBSERVATION_ID_FRAGMENT_PARAM
                           (applyUpdate m (FEATURE_ID_FRAGMENT_PARAM, id))).
  { subst next. unfold nextParams. cbn [commandUpdates]. unfold featureUpdates.
    rewrite truthy_get_selected, Hsel. reflexivity. }
  assert (Hwf1 : Map_wf (pmap (applyUpdate m (FEATURE_ID_FRAGMENT_PARAM, id)))
                 = true) by now apply applyUpdate_wf.
  repeat split.
  - rewrite Hnext. now apply HttpParams_has_delete.
  - rewrite Hnext. unfold HttpParams_get, HttpParams_delete. cbn [pmap].
    rewrite Map_get_delete_neq by discriminate.
    unfold applyUpdate. destruct (truthy id) eqn:Eid;
      cbn [HttpParams_set HttpParams_delete pmap].
    + rewrite Map_get_set_eq. destruct id; [reflexivity | discriminate].
    + apply Map_wf_iff in Hwf as [Hd _]. now rewrite Map_get_delete_eq.
  - exact Hrun.
  - rewrite Hrun. apply setFragmentParams_target; [|exact Hp].
    rewrite Hnext. cbn [HttpParams_delete pmap].
    apply Map_wf_iff. now apply Map_wf_delete.
Qed.

Lemma setFeatureId_clears_observation_witness :
  setFeatureId (Some "def") (serviceAt (Some "project/p1") (Some "f=abc&o=xyz"))
  = Ok (Router_navigate ["project/p1"]
          {| extras_fragment := Some "f=def"; replaceUrl := None |}
          (serviceAt (Some "project/p1") (Some "f=abc&o=xyz")))
  /\ setFeatureId None (serviceAt (Some "project/p1") (Some "f=abc&o=xyz"))
  = Ok (Router_navigate ["project/p1"] noExtras
          (serviceAt (Some "project/p1") (Some "f=abc&o=xyz"))).
Proof.
  split.
  - apply (setFeatureId_clears_observation (Some "def")
             (serviceAt (Some "project/p1") (Some "f=abc&o=xyz"))
             (routeAt (Some "f=abc&o=xyz"))
             {| pmap := [("f", ["abc"]); ("o", ["xyz"])] |} "project/p1");
      reflexivity.
  - apply (setFeatureId_clears_observation None
             (serviceAt (Some "project/p1") (Some "f=abc&o=xyz"))
             (routeAt (Some "f=abc&o=xyz"))
             {| pmap := [("f", ["abc"]); ("o", ["xyz"])] |} "project/p1");
      reflexivity.
Defined.

(** ** The navigation target of a fragment command *)

(** C4. For each of [setFeatureId], [setObservationId] and [setLayerId], run
    where the current fragment decodes and the url has a primary path: when
    the parameters after the requested and cascade updates are empty, the
    navigation asked for is to the primary path with no extras, so with no
    fragment (not the empty string); when they are not empty, their
    serialization is not the empty string and the navigation is to the primary
    path with that fragment. *)
Theorem fragment_suppressed_when_empty
  (c : Command) (this : NavigationService) (route : ActivatedRoute)
  (m : HttpParams) (path : string) :
  fragmentCommand c = true ->
  activatedRoute this = Some route ->
  HttpParams_fromString (orEmpty (snapshot_fragment (snapshot route))) = Ok m ->
  primary (router this) = Some path ->
  let next := nextParams c m in
  (pmap next = [] ->
     run c this = Ok (Router_navigate [path] noExtras this)
     /\ extras_fragment noExtras = None)
  /\ (pmap next <> [] ->
        (HttpParams_toString next =? "") = false
        /\ run c this
           = Ok (Router_navigate [path]
                   {| extras_fragment := Some (HttpParams_toString next);
                      replaceUrl := None |} this)).
Proof.
  intros Hc Hr Hm Hp next.
  assert (Hwf : Map_wf (pmap next) = true)
    by (apply applyUpdates_wf, (fromString_wf _ _ Hm)).
  apply Map_wf_iff in Hwf as [_ Hv].
  rewrite (run_fragment_command c this route m Hc Hr Hm). fold next.
  rewrite (setFragmentParams_target next this path Hv Hp).
  unfold targetExtras. split; intros Hn.
  - now rewrite Hn.
  - split; [now apply toString_not_empty|].
    destruct (pmap next); [congruence | reflexivity].
Qed.

Lemma fragment_suppressed_when_empty_witness :
  run (SetFeatureId None) (serviceAt (Some "project/p1") (Some "f=abc"))
  = Ok (Router_navigate ["project/p1"] noExtras
          (serviceAt (Some "project/p1") (Some "f=abc")))
  /\ extras_fragment noExtras = None.
Proof.
  apply (fragment_suppressed_when_empty (SetFeatureId None)
           (serviceAt (Some "project/p1") (Some "f=abc"))
           (routeAt (Some "f=abc")) {| pmap := [("f", ["abc"])] |}
           "project/p1"); reflexivity.
Defined.

(** ** The codec on strings that need escapes *)

Lemma replaceEscape_lit h1 h2 r c s :
  Ascii.eqb c "%" = false ->
  replaceEscape h1 h2 r (String c s) = String c (replaceEscape h1 h2 r s).
Proof.
  intros Hc. cbn [replaceEscape]. rewrite Hc. cbn [andb].
  now destruct s as [|a [|b rest]].
Qed.

Lemma replaceEscape_three h1 h2 r c a b s :
  replaceEscape h1 h2 r (String c (String a (String b s)))
  = if Ascii.eqb c "%" && eqb_ci a h1 && eqb_ci b h2
    then String r (replaceEscape h1 h2 r s)
    else String c (replaceEscape h1 h2 r (String a (String b s))).
Proof. reflexivity. Qed.

Lemma replaceEscape_esc h1 h2 r a b s :
  Ascii.eqb a "%" = false -> Ascii.eqb b "%" = false ->
  replaceEscape h1 h2 r (String "%" (String a (String b s)))
  = (render1 (unescapeToken h1 h2 r (Esc a b)) ++ replaceEscape h1 h2 r s)%string.
Proof.
  intros Ha Hb. rewrite replaceEscape_three. unfold unescapeToken.
  change (Ascii.eqb "%" "%") with true. cbn [andb].
  destruct (eqb_ci a h1 && eqb_ci b h2).
  - reflexivity.
  - cbn [render1 append]. now rewrite !replaceEscape_lit.
Qed.

Lemma replaceEscape_render h1 h2 r ts :
  forallb tokenOk ts = true ->
  replaceEscape h1 h2 r (render ts) = render (map (unescapeToken h1 h2 r) ts).
Proof.
  induction ts as [|t ts IH]; [reflexivity|].
  cbn [forallb]. intros H. apply andb_true_iff in H as [Ht Hts].
  specialize (IH Hts). cbn [render map]. destruct t as [c|a b].
  - cbn [tokenOk] in Ht. apply negb_true_iff in Ht.
    cbn [render1 append unescapeToken]. now rewrite replaceEscape_lit, IH.
  - cbn [tokenOk] in Ht. apply andb_true_iff in Ht as [Ha Hb].
    apply negb_true_iff in Ha. apply negb_true_iff in Hb.
    cbn [render1 append]. now rewrite replaceEscape_esc, IH.
Qed.

Ltac every_ascii c :=
  destruct c as [[] [] [] [] [] [] [] []]; vm_compute; reflexivity.

Lemma tokensWith_map (g : Token -> Token) f s :
  map g (tokensWith f s) = tokensWith (fun c => g (f c)) s.
Proof. induction s as [|c s IH]; [reflexivity|]. cbn. now rewrite IH. Qed.

Lemma tokensWith_ok f s :
  (forall c, tokenOk (f c) = true) -> forallb tokenOk (tokensWith f s) = true.
Proof.
  intros H. induction s as [|c s IH]; [reflexivity|].
  cbn [tokensWith forallb]. now rewrite H, IH.
Qed.

Lemma encodeURIComponent_tokens s :
  encodeURIComponent s = render (tokensWith escapeToken s).
Proof.
  induction s as [|c s IH]; [reflexivity|].
  cbn [encodeURIComponent tokensWith render]. unfold escapeToken at 1.
  destruct (uriUnescaped c); cbn [render1 append]; now rewrite IH.
Qed.

Lemma tokenOk_escape c : tokenOk (escapeToken c) = true.
Proof. every_ascii c. Qed.

Lemma tokenOk_unescape h1 h2 r t :
  Ascii.eqb r "%" = false -> tokenOk t = true ->
  tokenOk (unescapeToken h1 h2 r t) = true.
Proof.
  intros Hr Ht. destruct t as [c|a b]; [exact Ht|]. cbn [unescapeToken].
  destruct (eqb_ci a h1 && eqb_ci b h2); [|exact Ht].
  cbn [tokenOk]. now rewrite Hr.
Qed.

Lemma replaceEscape_tokens h1 h2 r f s :
  (forall c, tokenOk (f c) = true) ->
  replaceEscape h1 h2 r (render (tokensWith f s))
  = render (tokensWith (fun c => unescapeToken h1 h2 r (f c)) s).
Proof.
  intros H. rewrite replaceEscape_render by now apply tokensWith_ok.
  now rewrite tokensWith_map.
Qed.

Lemma standardEncoding_tokens s :
  standardEncoding s = render (tokensWith standardToken s).
Proof.
  unfold standardEncoding. rewrite encodeURIComponent_tokens.
  repeat (rewrite replaceEscape_tokens;
          [| intros c; repeat (apply tokenOk_unescape; [reflexivity|]);
             apply tokenOk_escape ]).
  reflexivity.
Qed.

Lemma standardToken_decodes c : tokenDecodes c (standardToken c) = true.
Proof. every_ascii c. Qed.

Lemma standardToken_no_amp c :
  mem_ascii "&" (render1 (standardToken c)) = false.
Proof. every_ascii c. Qed.

Lemma standardToken_no_eq c :
  Ascii.eqb c "=" = false -> mem_ascii "=" (render1 (standardToken c)) = false.
Proof.
  assert (H : Ascii.eqb c "=" || negb (mem_ascii "=" (render1 (standardToken c)))
              = true) by every_ascii c.
  intros Hc. rewrite Hc in H. cbn [orb] in H. now apply negb_true_iff in H.
Qed.

Lemma standardEncoding_no_amp s : mem_ascii "&" (standardEncoding s) = false.
Proof.
  rewrite standardEncoding_tokens.
  induction s as [|c s IH]; [reflexivity|].
  cbn [tokensWith render]. now rewrite mem_ascii_app, standardToken_no_amp, IH.
Qed.

Lemma standardEncoding_no_eq s :
  mem_ascii "=" s = false -> mem_ascii "=" (standardEncoding s) = false.
Proof.
  rewrite standardEncoding_tokens.
  induction s as [|c s IH]; [reflexivity|].
  cbn [mem_ascii]. intros H. apply orb_false_iff in H as [Hc Hs].
  cbn [tokensWith render]. rewrite mem_ascii_app, (IH Hs), orb_false_r.
  apply standardToken_no_eq. now rewrite Ascii.eqb_sym.
Qed.

Lemma decode_from_lit pending lo hi c s :
  Ascii.eqb c "%" = false ->
  decode_from pending lo hi (String c s)
  = match pending with
    | 0 => rmap (String c) (decode_from 0 0 0 s)
    | S _ => Throw URIError
    end.
Proof. intros Hc. cbn [decode_from]. now rewrite Hc. Qed.

Lemma decode_from_esc pending lo hi a b x y s :
  hexval a = Some x -> hexval b = Some y ->
  decode_from pending lo hi (String "%" (String a (String b s)))
  = match pending with
    | 0 =>
        if Nat.ltb (16 * x + y) 128 then
          rmap (String (ascii_of_nat (16 * x + y))) (decode_from 0 0 0 s)
        else
          match utf8_lead (16 * x + y) with
          | Some (n, lo', hi') =>
              rmap (String (ascii_of_nat (16 * x + y)))
                   (decode_from n lo' hi' s)
          | None => Throw URIError
          end
    | S p =>
        if between lo hi (16 * x + y) then
          rmap (String (ascii_of_nat (16 * x + y))) (decode_from p 128 191 s)
        else Throw URIError
    end.
Proof.
  intros Hx Hy. cbn [decode_from]. change (Ascii.eqb "%" "%") with true.
  cbv iota. now rewrite Hx, Hy.
Qed.

Lemma utf8_lead_lo b n lo hi : utf8_lead b = Some (n, lo, hi) -> 128 <= lo.
Proof.
  unfold utf8_lead.
  repeat match goal with
         | |- (if ?t then _ else _) = _ -> _ => destruct t
         end; intros H; inversion H; subst; lia.
Qed.

Lemma decode_tokens s : forall pending lo hi,
  utf8_from pending lo hi s = true ->
  (pending = 0 \/ 128 <= lo) ->
  decode_from pending lo hi (render (tokensWith standardToken s)) = Ok s.
Proof.
  induction s as [|c s IH]; intros pending lo hi H Hlo.
  - cbn in *. destruct pending; [reflexivity | discriminate].
  - cbn [tokensWith render]. pose proof (standardToken_decodes c) as Ht.
    cbn [utf8_from] in H.
    destruct (standardToken c) as [c'|a b]; cbn [tokenDecodes] in Ht.
    + apply andb_true_iff in Ht as [Ht Hlt].
      apply andb_true_iff in Ht as [Hc' Hc].
      apply Ascii.eqb_eq in Hc'. subst c'. apply negb_true_iff in Hc.
      cbn [render1 append]. rewrite decode_from_lit by exact Hc.
      destruct pending.
      * rewrite Hlt in H. rewrite (IH 0 0 0 H); [reflexivity | now left].
      * exfalso. apply andb_true_iff in H as [Hb _].
        unfold between in Hb. apply andb_true_iff in Hb as [Hb _].
        apply Nat.leb_le in Hb. apply Nat.ltb_lt in Hlt.
        destruct Hlo as [Hp|Hp]; [discriminate | lia].
    + destruct (hexval a) as [x|] eqn:Hx; [|discriminate].
      destruct (hexval b) as [y|] eqn:Hy; [|discriminate].
      apply Nat.eqb_eq in Ht. cbn [render1 append].
      rewrite (decode_from_esc pending lo hi a b x y _ Hx Hy), Ht.
      unfold code. rewrite ascii_nat_embedding. fold (code c).
      destruct pending.
      * destruct (Nat.ltb (code c) 128).
        -- rewrite (IH 0 0 0 H); [reflexivity | now left].
        -- destruct (utf8_lead (code c)) as [[[n lo'] hi']|] eqn:El;
             [|discriminate].
           rewrite (IH n lo' hi' H); [reflexivity|].
           right. exact (utf8_lead_lo _ _ _ _ El).
      * apply andb_true_iff in H as [Hb H]. rewrite Hb.
        rewrite (IH pending 128 191 H); [reflexivity | right; lia].
Qed.

Lemma decode_standardEncoding s :
  wellFormed s = true -> decodeURIComponent (standardEncoding s) = Ok s.
Proof.
  intros H. rewrite standardEncoding_tokens.
  apply decode_tokens; [exact H | now left].
Qed.

Lemma parseParam_encoded acc k v :
  writableKey k = true -> wellFormed v = true ->
  parseParam acc (standardEncoding k ++ "=" ++ standardEncoding v)
  = Ok (Map_set k (valuesOr k acc ++ [v]) acc).
Proof.
  intros Hk Hv. unfold writableKey in Hk.
  apply andb_true_iff in Hk as [Hk Hne]. apply negb_true_iff in Hne.
  unfold parseParam, valuesOr. cbn [append].
  rewrite indexOf_app by now apply standardEncoding_no_eq.
  rewrite take_app, drop_app. cbn [decodeKey decodeValue HttpUrlEncodingCodec].
  rewrite (decode_standardEncoding k Hk), (decode_standardEncoding v Hv).
  reflexivity.
Qed.

Lemma parseParams_encoded_values k vs2 : forall acc vs1 rest,
  ~ In k (Map_keys acc) ->
  writableKey k = true -> forallb wellFormed vs2 = true ->
  parseParams (acc ++ [(k, vs1)])
              (map (fun v => (standardEncoding k ++ "="
                              ++ standardEncoding v)%string) vs2 ++ rest) =
  parseParams (acc ++ [(k, vs1 ++ vs2)]) rest.
Proof.
  induction vs2 as [|v vs2 IH]; intros acc vs1 rest Hk Hsk Hsv.
  - now rewrite app_nil_r.
  - cbn [forallb] in Hsv. apply andb_true_iff in Hsv as [Hv Hvs].
    cbn [map app parseParams].
    rewrite parseParam_encoded by assumption. unfold valuesOr.
    rewrite Map_get_last, Map_set_last by assumption. cbn [bind].
    rewrite IH by assumption. now rewrite <- app_assoc.
Qed.

Lemma parseParams_encodedPieces m : forall acc,
  NoDup (Map_keys acc ++ Map_keys m) ->
  forallb hasValues m = true -> writableMap m = true ->
  parseParams acc (encodedPieces m) = Ok (acc ++ m).
Proof.
  induction m as [|[k vs] m IH]; intros acc Hnd Hv Hs.
  - now rewrite app_nil_r.
  - cbn [forallb] in Hv. cbn [writableMap forallb] in Hs.
    apply andb_true_iff in Hv as [Hvs Hv].
    apply andb_true_iff in Hs as [Hkv Hs].
    unfold writableEntry in Hkv. cbn [fst snd] in Hkv.
    apply andb_true_iff in Hkv as [Hsk Hsv].
    destruct vs as [|v vs]; [discriminate|].
    cbn [forallb] in Hsv. apply andb_true_iff in Hsv as [Hsv0 Hsv].
    assert (Hk : ~ In k (Map_keys acc)).
    { cbn [Map_keys map fst] in Hnd. apply NoDup_remove_2 in Hnd.
      intros Hin. apply Hnd, in_or_app. now left. }
    unfold encodedPieces. cbn [map concat fst snd]. fold (encodedPieces m).
    cbn [app parseParams]. rewrite parseParam_encoded by assumption.
    unfold valuesOr. rewrite (Map_get_notin k acc Hk), (Map_set_notin k _ acc Hk).
    cbn [bind app]. rewrite parseParams_encoded_values by assumption.
    rewrite IH; try assumption.
    + now rewrite <- app_assoc.
    + unfold Map_keys in *. rewrite map_app. cbn [map fst].
      rewrite <- app_assoc. exact Hnd.
Qed.

Lemma encodedPieces_have_eq m :
  Forall (fun s => mem_ascii "=" s = true) (encodedPieces m).
Proof.
  induction m as [|[k vs] m IH]; [constructor|].
  unfold encodedPieces. cbn [map concat fst snd]. fold (encodedPieces m).
  apply Forall_app. split; [|exact IH].
  apply Forall_forall. intros s Hin. apply in_map_iff in Hin as [v [<- _]].
  rewrite mem_ascii_app. cbn [append mem_ascii].
  rewrite Ascii.eqb_refl. cbn. apply orb_true_r.
Qed.

Lemma encodedPieces_no_amp m :
  Forall (fun s => mem_ascii "&" s = false) (encodedPieces m).
Proof.
  induction m as [|[k vs] m IH]; [constructor|].
  unfold encodedPieces. cbn [map concat fst snd]. fold (encodedPieces m).
  apply Forall_app. split; [|exact IH].
  apply Forall_forall. intros s Hin. apply in_map_iff in Hin as [v [<- _]].
  now rewrite !mem_ascii_app, !standardEncoding_no_amp.
Qed.

Lemma encodedPieces_not_nil kv m :
  hasValues kv = true -> encodedPieces (kv :: m) <> [].
Proof.
  destruct kv as [k [|v vs]]; [discriminate|]. intros _.
  unfold encodedPieces. cbn [map concat fst snd app]. discriminate.
Qed.

Lemma toString_encodedPieces p :
  Map_wf (pmap p) = true ->
  HttpParams_toString p = join "&" (encodedPieces (pmap p)).
Proof.
  destruct p as [m]. cbn [pmap]. intros Hwf.
  apply Map_wf_iff in Hwf as [Hd Hv].
  unfold HttpParams_toString, HttpParams_keys, Map_keys. cbn [pmap].
  set (line := fun kv : string * list string =>
                 map (fun v => (standardEncoding (fst kv) ++ "="
                                ++ standardEncoding v)%string) (snd kv)).
  match goal with
  | |- join _ (filter _ ?L) = _ =>
      assert (Hmap : L = map (join "&") (map line m))
  end.
  { rewrite !map_map. apply map_ext_in. intros [k vs] Hin. cbn [fst snd].
    now rewrite (Map_get_In k vs m Hd Hin). }
  rewrite Hmap.
  assert (Hne : Forall (fun l => l <> []) (map line m)).
  { apply Forall_forall. intros l Hin.
    apply in_map_iff in Hin as [[k vs] [<- Hin]].
    rewrite forallb_forall in Hv. specialize (Hv _ Hin).
    unfold hasValues in Hv. cbn [snd] in Hv. unfold line. cbn [fst snd].
    destruct vs; discriminate. }
  assert (Hfil : filter (fun param => negb (param =? ""))
                   (map (join "&") (map line m)) = map (join "&") (map line m)).
  { apply forallb_filter_id. apply forallb_forall. intros s Hin.
    apply in_map_iff in Hin as [l [<- Hin]].
    apply negb_true_iff, (mem_not_empty "=").
    apply join_has_eq.
    - rewrite Forall_forall in Hne. now apply Hne.
    - apply in_map_iff in Hin as [[k vs] [<- Hin]].
      pose proof (encodedPieces_have_eq [(k, vs)]) as Hp.
      unfold encodedPieces in Hp. cbn [map concat] in Hp.
      rewrite app_nil_r in Hp. exact Hp. }
  rewrite Hfil. rewrite join_concat by exact Hne. reflexivity.
Qed.

Lemma written_reads_back p :
  Map_wf (pmap p) = true -> writableMap (pmap p) = true ->
  HttpParams_fromString (HttpParams_toString p) = Ok p.
Proof.
  intros Hwf Hs. rewrite toString_encodedPieces by exact Hwf.
  destruct p as [m]. cbn [pmap] in *.
  pose proof Hwf as Hwf'. apply Map_wf_iff in Hwf' as [Hd Hv].
  destruct m as [|kv m'] eqn:E; [reflexivity|]. rewrite <- E in *.
  assert (Hne : encodedPieces m <> []).
  { subst m. apply encodedPieces_not_nil. cbn [forallb] in Hv.
    now apply andb_true_iff in Hv as [Hv _]. }
  assert (Heq : mem_ascii "=" (join "&" (encodedPieces m)) = true)
    by (apply join_has_eq; [exact Hne | apply encodedPieces_have_eq]).
  unfold HttpParams_fromString, paramParser.
  rewrite (mem_not_empty _ _ Heq). cbn [negb].
  destruct (join "&" (encodedPieces m)) as [|c s] eqn:Ej; [discriminate|].
  cbn [String.length Nat.ltb Nat.leb]. rewrite <- Ej.
  rewrite split_join; [| exact Hne | apply encodedPieces_no_amp].
  rewrite parseParams_encodedPieces; [reflexivity | exact Hd | exact Hv | exact Hs].
Qed.

Lemma writableMap_set k v m :
  writableKey k = true -> wellFormed v = true -> writableMap m = true ->
  writableMap (Map_set k [v] m) = true.
Proof.
  intros Hk Hv. unfold writableMap.
  assert (He : writableEntry (k, [v]) = true)
    by (unfold writableEntry; cbn [fst snd forallb]; now rewrite Hk, Hv).
  induction m as [|[k0 v0] m IH]; cbn [Map_set forallb].
  - intros _. now rewrite He.
  - intros H. apply andb_true_iff in H as [H0 Hm].
    destruct (String.eqb_spec k0 k) as [->|Hne]; cbn [forallb].
    + now rewrite He, Hm.
    + now rewrite H0, IH.
Qed.

Lemma writableMap_delete k m :
  writableMap m = true -> writableMap (Map_delete k m) = true.
Proof.
  unfold writableMap.
  induction m as [|[k0 v0] m IH]; cbn [Map_delete forallb]; [reflexivity|].
  intros H. apply andb_true_iff in H as [H0 Hm].
  destruct (k0 =? k); cbn [forallb]; [assumption|]. now rewrite H0, IH.
Qed.

Lemma applyUpdates_writable updates : forall p,
  forallb writableUpdate updates = true ->
  writableMap (pmap p) = true ->
  writableMap (pmap (fold_left applyUpdate updates p)) = true.
Proof.
  induction updates as [|[k v] updates IH]; intros p Hu Hp; [exact Hp|].
  cbn [forallb] in Hu. apply andb_true_iff in Hu as [Hkv Hu].
  unfold writableUpdate in Hkv. cbn [fst snd] in Hkv.
  apply andb_true_iff in Hkv as [Hk Hv].
  cbn [fold_left]. apply IH; [exact Hu|]. unfold applyUpdate.
  destruct (truthy v); cbn [HttpParams_set HttpParams_delete pmap].
  - now apply writableMap_set.
  - now apply writableMap_delete.
Qed.

Lemma commandUpdates_writable c m :
  writableCommand c = true ->
  forallb writableUpdate (commandUpdates c m) = true.
Proof.
  destruct c; cbn [writableCommand commandUpdates forallb]; intros H;
    try reflexivity.
  - unfold featureUpdates, writableUpdate.
    destruct (truthy (HttpParams_get OBSERVATION_ID_FRAGMENT_PARAM m));
      cbn [forallb fst snd]; now rewrite H.
  - unfold writableUpdate. cbn [fst snd]. now rewrite H.
  - unfold writableUpdate. cbn [fst snd orEmpty]. now rewrite H.
Qed.

(** ** Keys a command does not name *)

Lemma urlSafeMap_set k v m :
  urlSafe k = true -> urlSafe v = true -> urlSafeMap m = true ->
  urlSafeMap (Map_set k [v] m) = true.
Proof.
  intros Hk Hv. unfold urlSafeMap.
  assert (He : urlSafeEntry (k, [v]) = true)
    by (unfold urlSafeEntry; cbn [fst snd forallb]; now rewrite Hk, Hv).
  induction m as [|[k0 v0] m IH]; cbn [Map_set forallb].
  - intros _. now rewrite He.
  - intros H. apply andb_true_iff in H as [H0 Hm].
    destruct (String.eqb_spec k0 k) as [->|Hne]; cbn [forallb].
    + now rewrite He, Hm.
    + now rewrite H0, IH.
Qed.

Lemma urlSafeMap_delete k m :
  urlSafeMap m = true -> urlSafeMap (Map_delete k m) = true.
Proof.
  unfold urlSafeMap.
  induction m as [|[k0 v0] m IH]; cbn [Map_delete forallb]; [reflexivity|].
  intros H. apply andb_true_iff in H as [H0 Hm].
  destruct (k0 =? k); cbn [forallb]; [assumption|]. now rewrite H0, IH.
Qed.

Lemma applyUpdates_urlSafe updates : forall p,
  forallb urlSafeUpdate updates = true ->
  urlSafeMap (pmap p) = true ->
  urlSafeMap (pmap (fold_left applyUpdate updates p)) = true.
Proof.
  induction updates as [|[k v] updates IH]; intros p Hu Hp; [exact Hp|].
  cbn [forallb] in Hu. apply andb_true_iff in Hu as [Hkv Hu].
  unfold urlSafeUpdate in Hkv. cbn [fst snd] in Hkv.
  apply andb_true_iff in Hkv as [Hk Hv].
  cbn [fold_left]. apply IH; [exact Hu|]. unfold applyUpdate.
  destruct (truthy v); cbn [HttpParams_set HttpParams_delete pmap].
  - now apply urlSafeMap_set.
  - now apply urlSafeMap_delete.
Qed.

Lemma commandUpdates_urlSafe c m :
  urlSafeCommand c = true ->
  forallb urlSafeUpdate (commandUpdates c m) = true.
Proof.
  destruct c; cbn [urlSafeCommand commandUpdates forallb]; intros H;
    try reflexivity.
  - unfold featureUpdates, urlSafeUpdate.
    destruct (truthy (HttpParams_get OBSERVATION_ID_FRAGMENT_PARAM m));
      cbn [forallb fst snd]; now rewrite H.
  - unfold urlSafeUpdate. cbn [fst snd]. now rewrite H.
  - unfold urlSafeUpdate. cbn [fst snd orEmpty]. now rewrite H.
Qed.

(** C5, the claim as written fails: the fragment [a%3Db=c] decodes to the key
    [a=b] with the value [c]; [setLayerId("q")] writes [a=b=c&l=q], the key
    unescaped, and in that fragment the key [a=b] is gone and a key [a] has
    appeared. *)
Lemma setLayerId_rewrites_key_with_equals :
  exists m written,
    HttpParams_fromString "a%3Db=c" = Ok m
    /\ HttpParams_getAll "a=b" m = Some ["c"]
    /\ requestedOf (setLayerId "q"
                      (serviceAt (Some "project/p1") (Some "a%3Db=c")))
       = Some (Navigate ["project/p1"]
                 {| extras_fragment := Some "a=b=c&l=q"; replaceUrl := None |})
    /\ HttpParams_fromString "a=b=c&l=q" = Ok written
    /\ HttpParams_getAll "a=b" written = None
    /\ HttpParams_getAll "a" written = Some ["b=c"].
Proof. do 2 eexists. repeat split. Qed.

(** C5, amended. Where the current fragment decodes, each fragment command
    hands [setFragmentParams] the current parameters changed only at the keys
    of its updates: [setLayerId] at the layer key, [setObservationId] at the
    observation key, [setFeatureId] at the feature and observation keys;
    every other key, known or not, keeps all its values, and the navigation
    asked for is the one written from these parameters. When the current
    keys and values and the id are well-formed strings and no current key
    has [=] in it, the fragment written decodes to exactly these parameters,
    so the other keys and their values are kept in the url too. *)
Theorem commands_preserve_other_keys
  (c : Command) (this : NavigationService) (route : ActivatedRoute)
  (m : HttpParams) :
  fragmentCommand c = true ->
  activatedRoute this = Some route ->
  HttpParams_fromString (orEmpty (snapshot_fragment (snapshot route))) = Ok m ->
  let next := nextParams c m in
  run c this = setFragmentParams next this
  /\ (forall k, ~ In k (updatedKeys c) ->
        HttpParams_getAll k next = HttpParams_getAll k m)
  /\ (forall path, primary (router this) = Some path ->
        run c this = Ok (Router_navigate [path] (targetExtras next) this))
  /\ (writableMap (pmap m) = true -> writableCommand c = true ->
        HttpParams_fromString (HttpParams_toString next) = Ok next
        /\ HttpParams_fromString
             (orEmpty (extras_fragment (targetExtras next))) = Ok next).
Proof.
  intros Hc Hr Hm next.
  assert (Hwf : Map_wf (pmap next) = true)
    by (apply applyUpdates_wf, (fromString_wf _ _ Hm)).
  pose proof (run_fragment_command c this route m Hc Hr Hm) as Hrun.
  fold next in Hrun. split; [exact Hrun | split; [|split]].
  - intros k Hk. apply applyUpdates_getAll.
    intros Hin. apply Hk. exact (commandUpdates_keys c m k Hin).
  - intros path Hp. rewrite Hrun. apply setFragmentParams_target; [|exact Hp].
    now apply Map_wf_iff in Hwf as [_ Hv].
  - intros Hs Hsc.
    assert (Hback : HttpParams_fromString (HttpParams_toString next) = Ok next).
    { apply written_reads_back; [exact Hwf|].
      apply applyUpdates_writable;
        [now apply commandUpdates_writable | exact Hs]. }
    split; [exact Hback|]. unfold targetExtras.
    destruct (pmap next) as [|kv rest] eqn:E.
    + destruct next as [mn]. cbn [pmap] in E. subst mn. reflexivity.
    + exact Hback.
Qed.

Lemma commands_preserve_other_keys_witness :
  let this :=
    serviceAt (Some "project/p1") (Some "f=abc&o=xyz&x=hello%20world") in
  let m := {| pmap := [("f", ["abc"]); ("o", ["xyz"]);
                       ("x", ["hello world"])] |} in
  let next := {| pmap := [("f", ["abc"]); ("o", ["xyz"]);
                          ("x", ["hello world"]); ("l", ["q"])] |} in
  (setLayerId "q" this = setFragmentParams next this
   /\ (forall k, ~ In k ["l"] ->
         HttpParams_getAll k next = HttpParams_getAll k m)
   /\ setLayerId "q" this
      = Ok (Router_navigate ["project/p1"]
              {| extras_fragment := Some "f=abc&o=xyz&x=hello%20world&l=q";
                 replaceUrl := None |} this)
   /\ HttpParams_fromString "f=abc&o=xyz&x=hello%20world&l=q" = Ok next)
  /\ requestedOf (setLayerId "q"
                    (serviceAt (Some "project/p1") (Some "f=abc&o=xyz")))
     = Some (Navigate ["project/p1"]
               {| extras_fragment := Some "f=abc&o=xyz&l=q";
                  replaceUrl := None |})
  /\ HttpParams_fromString "f=abc&o=xyz&l=q"
     = Ok {| pmap := [("f", ["abc"]); ("o", ["xyz"]); ("l", ["q"])] |}.
Proof.
  split; [|split; reflexivity].
  destruct (commands_preserve_other_keys (SetLayerId "q")
              (serviceAt (Some "project/p1")
                         (Some "f=abc&o=xyz&x=hello%20world"))
              (routeAt (Some "f=abc&o=xyz&x=hello%20world"))
              {| pmap := [("f", ["abc"]); ("o", ["xyz"]);
                          ("x", ["hello world"])] |}
              eq_refl eq_refl eq_refl) as [H1 [H2 [H3 H4]]].
  split; [exact H1 | split; [exact H2 | split]].
  - exact (H3 "project/p1" eq_refl).
  - exact (proj1 (H4 eq_refl eq_refl)).
Defined.

(** ** History *)

Lemma setFragmentParams_request p this this' :
  setFragmentParams p this = Ok this' ->
  exists path extras,
    this' = Router_navigate [path] extras this /\ replaceUrl extras = None.
Proof.
  unfold setFragmentParams. destruct (primary (router this)) as [path|];
    [|discriminate]. cbn [bind].
  destruct (negb (HttpParams_toString p =? "")); intros H; inversion H;
    eexists _, _; split; reflexivity.
Qed.

Lemma setFragmentParam_request updates this this' :
  setFragmentParam updates this = Ok this' ->
  exists path extras,
    this' = Router_navigate [path] extras this /\ replaceUrl extras = None.
Proof.
  unfold setFragmentParam. destruct (getFragmentParams this); [|discriminate].
  cbn [bind]. apply setFragmentParams_request.
Qed.

(** C6, the claim as written fails: the navigation [setLayerId] asks for, and
    the one [signIn] asks for, carry no [replaceUrl], so the router pushes a
    new history entry. *)
Lemma navigation_pushes_history :
  exists r r',
    requestedOf (run (SetLayerId "q")
                   (serviceAt (Some "project/p1") (Some "f=abc"))) = Some r
    /\ replacesHistory r = false
    /\ requestedOf (run SignIn (serviceAt (Some "project/p1") None)) = Some r'
    /\ replacesHistory r' = false.
Proof. do 2 eexists. repeat split. Qed.

(** C6, amended. Every navigation asked for by [setFeatureId],
    [setObservationId], [setLayerId], [selectProject], [newProject], [signIn]
    or [signOut] is one more request to the router, made without the
    [replaceUrl] option: none asks the router to replace the current history
    entry. *)
Theorem navigations_leave_replaceUrl_unset
  (c : Command) (this this' : NavigationService) :
  run c this = Ok this' ->
  exists r,
    requests (router this') = requests (router this) ++ [r]
    /\ replaceUrl (request_extras r) = None
    /\ replacesHistory r = false.
Proof.
  assert (Hnav : forall updates,
    setFragmentParam updates this = Ok this' ->
    exists r,
      requests (router this') = requests (router this) ++ [r]
      /\ replaceUrl (request_extras r) = None
      /\ replacesHistory r = false).
  { intros updates H.
    apply setFragmentParam_request in H as [path [extras [-> He]]].
    exists (Navigate [path] extras). unfold replacesHistory.
    cbn [request_extras]. rewrite He. repeat split. }
  destruct c; cbn [run]; intros H.
  - unfold setFeatureId in H.
    destruct (getObservationId this); [|discriminate].
    cbn [bind] in H. now apply Hnav in H.
  - now apply Hnav in H.
  - now apply Hnav in H.
  - inversion H. eexists. repeat split.
  - inversion H. eexists. repeat split.
  - inversion H. eexists. repeat split.
  - inversion H. eexists. repeat split.
Qed.

Lemma navigations_leave_replaceUrl_unset_witness :
  exists r,
    requests (router (selectProject "p1" (serviceAt (Some "project/p0") None)))
    = requests (router (serviceAt (Some "project/p0") None)) ++ [r]
    /\ replaceUrl (request_extras r) = None
    /\ replacesHistory r = false.
Proof.
  apply (navigations_leave_replaceUrl_unset (SelectProject "p1")
           (serviceAt (Some "project/p0") None)).
  reflexivity.
Defined.

(** ** Streams *)

Lemma rx_map_Next {A B : Type} (f : A -> Result B) xs ys :
  Forall2 (fun x y => f x = Ok y) xs ys ->
  rx_map f (map Next xs) = map Next ys.
Proof.
  induction 1 as [|x y xs ys Hxy _ IH]; [reflexivity|].
  cbn [map rx_map]. now rewrite Hxy, IH.
Qed.

Lemma rx_map_Ok {A B : Type} (g : A -> B) xs :
  rx_map (fun x => Ok (g x)) (map Next xs) = map (fun x => Next (g x)) xs.
Proof.
  induction xs as [|x xs IH]; [reflexivity|]. cbn [map rx_map]. now rewrite IH.
Qed.

(** C7, the claim as written fails: when the fragment goes from [l=a&f=b] to
    [l=a&f=c] only the feature key changes, and the layer-id stream emits [a]
    a second time. *)
Lemma layerId_emits_unchanged_value :
  getLayerId'
    (init {| paramMap := [];
             fragment := [Next (Some "l=a&f=b"); Next (Some "l=a&f=c")];
             snapshot := {| snapshot_fragment := Some "l=a&f=c" |} |}
          (constructor {| primary := Some "project/p1"; requests := [] |}))
  = Ok (Some [Next (Some "a"); Next (Some "a")])
  /\ emitsOnlyChanges [Some "a"; Some "a"] = false.
Proof. split; reflexivity. Qed.

(** C7, amended. For every sequence of fragments the route emits, each of
    which decodes, the layer-id, feature-id and observation-id streams each
    emit once per fragment emitted, the first value of their own key in it
    (null when the key is absent), whether or not that value differs from the
    one before. *)
Theorem id_streams_emit_per_fragment
  (route : ActivatedRoute) (this : NavigationService)
  (fragments : list (option string)) (decoded : list HttpParams) :
  fragment route = map Next fragments ->
  Forall2 (fun fr m => HttpParams_fromString (orEmpty fr) = Ok m)
          fragments decoded ->
  let service := init route this in
  getLayerId' service
  = Ok (Some (map (fun m => Next (HttpParams_get LAYER_ID_FRAGMENT_PARAM m))
                  decoded))
  /\ getFeatureId' service
     = Ok (Some (map (fun m => Next (HttpParams_get FEATURE_ID_FRAGMENT_PARAM m))
                     decoded))
  /\ getObservationId' service
     = Ok (Some (map (fun m =>
                        Next (HttpParams_get OBSERVATION_ID_FRAGMENT_PARAM m))
                     decoded)).
Proof.
  intros Hf Hd service. subst service.
  unfold getLayerId', getFeatureId', getObservationId', init.
  cbn [layerId' featureId' observationId']. rewrite Hf.
  rewrite (rx_map_Next _ fragments decoded Hd), !rx_map_Ok.
  repeat split.
Qed.

Lemma id_streams_emit_per_fragment_witness :
  let route := {| paramMap := [];
                  fragment := [Next (Some "l=a&f=b"); Next (Some "l=a&f=c")];
                  snapshot := {| snapshot_fragment := Some "l=a&f=c" |} |} in
  let service :=
    init route (constructor {| primary := Some "project/p1"; requests := [] |})
  in
  getLayerId' service = Ok (Some [Next (Some "a"); Next (Some "a")])
  /\ getFeatureId' service = Ok (Some [Next (Some "b"); Next (Some "c")])
  /\ getObservationId' service = Ok (Some [Next None; Next None]).
Proof.
  apply (id_streams_emit_per_fragment
           {| paramMap := [];
              fragment := [Next (Some "l=a&f=b"); Next (Some "l=a&f=c")];
              snapshot := {| snapshot_fragment := Some "l=a&f=c" |} |}
           (constructor {| primary := Some "project/p1"; requests := [] |})
           [Some "l=a&f=b"; Some "l=a&f=c"]
           [ {| pmap := [("l", ["a"]); ("f", ["b"])] |};
             {| pmap := [("l", ["a"]); ("f", ["c"])] |} ]).
  - reflexivity.
  - repeat constructor.
Defined.

(** ** Before init *)

(** C8, the claim as written fails: on a service that was never initialised
    [getLayerId$] returns, and what it returns is [undefined]. *)
Lemma getLayerId_before_init :
  getLayerId' (constructor {| primary := Some "project/p1"; requests := [] |})
  = Ok None.
Proof. reflexivity. Qed.

(** C8, amended. On a service that was never initialised, the five stream
    accessors return [undefined] without failing, and [getFeatureId] and
    [getObservationId] fail at once, with the TypeError of reading the
    snapshot of an unset route. *)
Theorem accessors_before_init (r : Router) :
  let this := constructor r in
  getProjectId' this = Ok None
  /\ getLayerId' this = Ok None
  /\ getFeatureId' this = Ok None
  /\ getObservationId' this = Ok None
  /\ getSideNavMode' this = Ok None
  /\ getFeatureId this = Throw TypeError
  /\ getObservationId this = Throw TypeError.
Proof. repeat split. Qed.

(** ** Fragments that are not key=value pairs *)

Lemma mem_take c n : forall s, mem_ascii c s = false -> mem_ascii c (take n s) = false.
Proof.
  induction n as [|n IH]; intros [|d s]; cbn [take mem_ascii]; try reflexivity.
  intros H. apply orb_false_iff in H as [Hd Hs]. now rewrite Hd, IH.
Qed.

Lemma mem_drop c n : forall s, mem_ascii c s = false -> mem_ascii c (drop n s) = false.
Proof.
  induction n as [|n IH]; intros [|d s]; cbn [drop mem_ascii]; try tauto.
  intros H. apply orb_false_iff in H as [Hd Hs]. now apply IH.
Qed.

Lemma mem_split c sep s :
  mem_ascii c s = false -> Forall (fun x => mem_ascii c x = false) (split sep s).
Proof.
  induction s as [|d s IH]; cbn [split mem_ascii].
  - intros _. now constructor.
  - intros H. apply orb_false_iff in H as [Hd Hs]. specialize (IH Hs).
    destruct (Ascii.eqb d sep).
    + now constructor.
    + destruct (split sep s) as [|h t].
      * constructor; [|constructor]. cbn [mem_ascii]. now rewrite Hd.
      * inversion IH; subst. constructor; [|assumption].
        cbn [mem_ascii]. rewrite Hd. assumption.
Qed.

Lemma parseParam_no_percent acc param :
  mem_ascii "%" param = false -> exists acc', parseParam acc param = Ok acc'.
Proof.
  intros H. unfold parseParam.
  cbn [decodeKey decodeValue HttpUrlEncodingCodec].
  destruct (indexOf "=" param) as [i|].
  - rewrite (decode_no_percent _ (mem_take _ i _ H)).
    rewrite (decode_no_percent _ (mem_drop _ (i + 1) _ H)).
    cbn [bind]. now eexists.
  - rewrite (decode_no_percent _ H). cbn [bind]. now eexists.
Qed.

Lemma parseParams_no_percent params :
  Forall (fun x => mem_ascii "%" x = false) params ->
  forall acc, exists m, parseParams acc params = Ok m.
Proof.
  induction 1 as [|param params Hp _ IH]; intros acc; cbn [parseParams].
  - now eexists.
  - destruct (parseParam_no_percent acc param Hp) as [acc' ->]. cbn [bind].
    apply IH.
Qed.

Lemma length_pos s : s <> EmptyString -> Nat.ltb 0 (String.length s) = true.
Proof. destruct s; [congruence | reflexivity]. Qed.

(** C9, the claim as written fails: the fragment [abc] is not a key=value
    pair, and it decodes to a map that has the key [abc]; the fragment [%] is
    not one either, and decoding it throws. *)
Lemma malformed_fragment_not_empty :
  HttpParams_fromString "abc" = Ok {| pmap := [("abc", [EmptyString])] |}
  /\ HttpParams_fromString "" = Ok {| pmap := [] |}
  /\ HttpParams_fromString "%" = Throw URIError.
Proof. repeat split. Qed.

(** C9, amended. Decoding a fragment string that has no percent sign throws
    no error, and the map is empty only when the string is; a non-empty
    string with no [&] and no [=] in it decodes to the map in which the whole
    string is a key and the empty string its value. *)
Theorem fragment_without_pairs (s : string) :
  mem_ascii "%" s = false ->
  (exists p, HttpParams_fromString s = Ok p
             /\ (pmap p = [] <-> s = EmptyString))
  /\ (s <> EmptyString ->
      mem_ascii "&" s = false -> mem_ascii "=" s = false ->
      HttpParams_fromString s = Ok {| pmap := [(s, [EmptyString])] |}).
Proof.
  intros Hp. unfold HttpParams_fromString, paramParser.
  destruct (String.eqb_spec s "") as [->|Hne].
  - split; [|congruence]. exists {| pmap := [] |}. now repeat split.
  - cbn [negb]. rewrite (length_pos s Hne). split.
    + destruct (parseParams_no_percent _ (mem_split "%" "&" s Hp) [])
        as [m Hm].
      rewrite Hm. cbn [bind]. eexists. split; [reflexivity|]. cbn [pmap].
      split; [|congruence]. intros ->. exfalso.
      apply (parseParams_not_nil _ _ _ Hm); [|reflexivity].
      right. apply split_not_nil.
    + intros _ Ha He. rewrite (split_no_sep _ _ Ha). cbn [parseParams].
      unfold parseParam. rewrite (indexOf_none _ _ He).
      cbn [decodeKey HttpUrlEncodingCodec]. rewrite (decode_no_percent _ Hp).
      reflexivity.
Qed.

Lemma fragment_without_pairs_witness :
  (exists p, HttpParams_fromString "abc" = Ok p
             /\ (pmap p = [] <-> "abc" = EmptyString))
  /\ ("abc" <> EmptyString ->
      mem_ascii "&" "abc" = false -> mem_ascii "=" "abc" = false ->
      HttpParams_fromString "abc" = Ok {| pmap := [("abc", [EmptyString])] |}).
Proof. apply (fragment_without_pairs "abc"). reflexivity. Defined.

(** ** editObservation *)

(** C10, the claim as written fails at the empty string, an id that is not
    null: [editObservation] and [setObservationId] then do the same on every
    service. *)
Lemma editObservation_same_on_empty_id :
  exists id : string,
    forall this, editObservation (Some id) this = setObservationId (Some id) this.
Proof.
  exists EmptyString. intros this.
  unfold editObservation, setObservationId, setFragmentParam.
  destruct (getFragmentParams this); reflexivity.
Qed.

(** C10, amended. For every id, [editObservation] does what
    [setObservationId(null)] does: where the current fragment decodes it hands
    [setFragmentParams] the current parameters without the observation key,
    so it never sets that key to the id, and where [setObservationId(null)]
    fails it fails alike. For every id that is neither null nor the empty
    string there is a service on which it differs from [setObservationId]. *)
Theorem editObservation_clears (id : option string) (this : NavigationService) :
  editObservation id this = setObservationId None this
  /\ (forall route m,
        activatedRoute this = Some route ->
        HttpParams_fromString (orEmpty (snapshot_fragment (snapshot route)))
        = Ok m ->
        let next := HttpParams_delete OBSERVATION_ID_FRAGMENT_PARAM m in
        editObservation id this = setFragmentParams next this
        /\ HttpParams_has OBSERVATION_ID_FRAGMENT_PARAM next = false)
  /\ (truthy id = true ->
      exists that, editObservation id that <> setObservationId id that).
Proof.
  split; [|split].
  - unfold editObservation, setObservationId, setFragmentParam.
    destruct (getFragmentParams this); reflexivity.
  - intros route m Hr Hm next. split.
    + unfold editObservation, setFragmentParam, getFragmentParams.
      rewrite Hr. cbn [bind]. rewrite Hm. reflexivity.
    + apply HttpParams_has_delete, (fromString_wf _ _ Hm).
  - intros Hid. destruct id as [s|]; [|discriminate].
    set (that := serviceAt (Some "project/p1") None). exists that.
    assert (He : editObservation (Some s) that
                 = setFragmentParams
                     (HttpParams_delete "o" {| pmap := [] |}) that)
      by reflexivity.
    assert (Hs : setObservationId (Some s) that
                 = setFragmentParams
                     (HttpParams_set "o" s {| pmap := [] |}) that).
    { unfold setObservationId, setFragmentParam.
      change (getFragmentParams that) with (Ok {| pmap := [] |}).
      cbn [bind iterate Immutable_Map fold_left fst snd Map_set applyUpdate].
      rewrite Hid. reflexivity. }
    rewrite He, Hs.
    rewrite (setFragmentParams_target
               (HttpParams_set "o" s {| pmap := [] |}) that "project/p1");
      [| reflexivity | reflexivity ].
    rewrite (setFragmentParams_target
               (HttpParams_delete "o" {| pmap := [] |}) that "project/p1");
      [| reflexivity | reflexivity ].
    cbn. intros H. inversion H.
Qed.

Lemma editObservation_clears_witness :
  let this := serviceAt (Some "project/p1") (Some "l=L1&f=F2&o=O1") in
  let next := {| pmap := [("l", ["L1"]); ("f", ["F2"])] |} in
  editObservation (Some "O3") this = setFragmentParams next this
  /\ HttpParams_has OBSERVATION_ID_FRAGMENT_PARAM next = false.
Proof.
  apply (proj1 (proj2 (editObservation_clears (Some "O3")
           (serviceAt (Some "project/p1") (Some "l=L1&f=F2&o=O1"))))
           (routeAt (Some "l=L1&f=F2&o=O1"))
           {| pmap := [("l", ["L1"]); ("f", ["F2"]); ("o", ["O1"])] |});
    reflexivity.
Defined.

(** * Further properties of the service *)

(** ** One update of the parameters *)

Lemma getFragmentParams_inv this m :
  getFragmentParams this = Ok m ->
  exists route,
    activatedRoute this = Some route
    /\ HttpParams_fromString (orEmpty (snapshot_fragment (snapshot route)))
       = Ok m.
Proof.
  unfold getFragmentParams. destruct (activatedRoute this) as [route|];
    [|discriminate].
  cbn [bind]. intros H. now exists route.
Qed.

Lemma getFragmentParams_wf this m :
  getFragmentParams this = Ok m -> Map_wf (pmap m) = true.
Proof.
  intros H. apply getFragmentParams_inv in H as [route [_ H]].
  exact (fromString_wf _ _ H).
Qed.

Lemma run_next c this m :
  fragmentCommand c = true -> getFragmentParams this = Ok m ->
  run c this = setFragmentParams (nextParams c m) this.
Proof.
  intros Hc H. apply getFragmentParams_inv in H as [route [Hr Hm]].
  exact (run_fragment_command c this route m Hc Hr Hm).
Qed.

Lemma applyUpdate_getAll_same k v p :
  Map_wf (pmap p) = true ->
  HttpParams_getAll k (applyUpdate p (k, v))
  = if truthy v then Some [orEmpty v] else None.
Proof.
  intros Hwf. apply Map_wf_iff in Hwf as [Hd _].
  unfold applyUpdate, HttpParams_getAll.
  destruct (truthy v); cbn [HttpParams_set HttpParams_delete pmap].
  - apply Map_get_set_eq.
  - now apply Map_get_delete_eq.
Qed.

Lemma selected_getAll k p q :
  HttpParams_getAll k p = HttpParams_getAll k q -> selected k p = selected k q.
Proof. unfold HttpParams_getAll, selected. now intros ->. Qed.

Lemma selected_applyUpdate_same k v p :
  Map_wf (pmap p) = true -> selected k (applyUpdate p (k, v)) = truthy v.
Proof.
  intros Hwf. pose proof (applyUpdate_getAll_same k v p Hwf) as H.
  unfold HttpParams_getAll in H. unfold selected. rewrite H.
  destruct v as [s|]; cbn [truthy orEmpty]; [|reflexivity].
  destruct (negb (s =? "")) eqn:E; [exact E | reflexivity].
Qed.

Lemma selected_applyUpdate_other k k' v p :
  k <> k' -> selected k (applyUpdate p (k', v)) = selected k p.
Proof. intros Hne. now apply selected_getAll, applyUpdate_getAll. Qed.

Lemma nextParams_feature id m :
  nextParams (SetFeatureId id) m
  = if selected OBSERVATION_ID_FRAGMENT_PARAM m
    then applyUpdate (applyUpdate m (FEATURE_ID_FRAGMENT_PARAM, id))
                     (OBSERVATION_ID_FRAGMENT_PARAM, None)
    else applyUpdate m (FEATURE_ID_FRAGMENT_PARAM, id).
Proof.
  unfold nextParams. cbn [commandUpdates]. unfold featureUpdates.
  rewrite truthy_get_selected.
  now destruct (selected OBSERVATION_ID_FRAGMENT_PARAM m).
Qed.

Lemma key_f_o : FEATURE_ID_FRAGMENT_PARAM <> OBSERVATION_ID_FRAGMENT_PARAM.
Proof. discriminate. Qed.

Lemma key_l_o : LAYER_ID_FRAGMENT_PARAM <> OBSERVATION_ID_FRAGMENT_PARAM.
Proof. discriminate. Qed.

Lemma key_l_f : LAYER_ID_FRAGMENT_PARAM <> FEATURE_ID_FRAGMENT_PARAM.
Proof. discriminate. Qed.

(** ** The key a command names *)

(** X1. Where the current fragment decodes to [m], each fragment command hands
    [setFragmentParams] parameters in which its own key has the id as its
    only value, whatever values it had, or is absent when the id is null or
    the empty string. [setFeatureId] also removes the observation key when an
    observation is selected, and leaves its values as they are when none
    is. *)
Theorem command_sets_own_key (this : NavigationService) (m : HttpParams) :
  getFragmentParams this = Ok m ->
  (forall id,
     let next := nextParams (SetLayerId id) m in
     setLayerId id this = setFragmentParams next this
     /\ HttpParams_getAll LAYER_ID_FRAGMENT_PARAM next
        = if id =? "" then None else Some [id])
  /\ (forall id,
        let next := nextParams (SetObservationId id) m in
        setObservationId id this = setFragmentParams next this
        /\ HttpParams_getAll OBSERVATION_ID_FRAGMENT_PARAM next
           = if truthy id then Some [orEmpty id] else None)
  /\ (forall id,
        let next := nextParams (SetFeatureId id) m in
        setFeatureId id this = setFragmentParams next this
        /\ HttpParams_getAll FEATURE_ID_FRAGMENT_PARAM next
           = (if truthy id then Some [orEmpty id] else None)
        /\ HttpParams_getAll OBSERVATION_ID_FRAGMENT_PARAM next
           = if selected OBSERVATION_ID_FRAGMENT_PARAM m then None
             else HttpParams_getAll OBSERVATION_ID_FRAGMENT_PARAM m).
Proof.
  intros Hm. pose proof (getFragmentParams_wf this m Hm) as Hwf.
  split; [|split]; intros id next.
  - split; [exact (run_next (SetLayerId id) this m eq_refl Hm)|].
    subst next. change (nextParams (SetLayerId id) m)
      with (applyUpdate m (LAYER_ID_FRAGMENT_PARAM, Some id)).
    rewrite applyUpdate_getAll_same by exact Hwf. cbn [truthy orEmpty].
    now destruct (id =? "").
  - split; [exact (run_next (SetObservationId id) this m eq_refl Hm)|].
    subst next. change (nextParams (SetObservationId id) m)
      with (applyUpdate m (OBSERVATION_ID_FRAGMENT_PARAM, id)).
    now apply applyUpdate_getAll_same.
  - split; [exact (run_next (SetFeatureId id) this m eq_refl Hm)|].
    subst next. rewrite nextParams_feature.
    destruct (selected OBSERVATION_ID_FRAGMENT_PARAM m); split.
    + rewrite applyUpdate_getAll by exact key_f_o.
      now apply applyUpdate_getAll_same.
    + rewrite applyUpdate_getAll_same by now apply applyUpdate_wf.
      reflexivity.
    + now apply applyUpdate_getAll_same.
    + apply applyUpdate_getAll. apply not_eq_sym, key_f_o.
Qed.

Lemma command_sets_own_key_witness :
  let this := serviceAt (Some "project/p1") (Some "l=a&l=b&f=F1&o=O1") in
  let next := {| pmap := [("l", ["q"]); ("f", ["F1"]); ("o", ["O1"])] |} in
  setLayerId "q" this = setFragmentParams next this
  /\ HttpParams_getAll LAYER_ID_FRAGMENT_PARAM next = Some ["q"].
Proof.
  apply (proj1 (command_sets_own_key
                  (serviceAt (Some "project/p1") (Some "l=a&l=b&f=F1&o=O1"))
                  {| pmap := [("l", ["a"; "b"]); ("f", ["F1"]);
                              ("o", ["O1"])] |} eq_refl) "q").
Defined.

(** ** The mode a command leads to *)

(** X2. Where the current fragment decodes to [m], the side-nav mode of the
    parameters a command hands to [setFragmentParams] is: after
    [setFeatureId], FEATURE for an id that is not null or empty and
    LAYER_LIST otherwise, whatever was selected; after [setObservationId],
    OBSERVATION for such an id, even with no feature selected, and otherwise
    FEATURE or LAYER_LIST as a feature is selected or not; after
    [setLayerId], the mode of [m]. *)
Theorem mode_after_command (this : NavigationService) (m : HttpParams) :
  getFragmentParams this = Ok m ->
  (forall id,
     let next := nextParams (SetFeatureId id) m in
     setFeatureId id this = setFragmentParams next this
     /\ fragmentParamsToSideNavMode next
        = if truthy id then FEATURE else LAYER_LIST)
  /\ (forall id,
        let next := nextParams (SetObservationId id) m in
        setObservationId id this = setFragmentParams next this
        /\ fragmentParamsToSideNavMode next
           = if truthy id then OBSERVATION
             else if truthy (HttpParams_get FEATURE_ID_FRAGMENT_PARAM m)
             then FEATURE else LAYER_LIST)
  /\ (forall id,
        let next := nextParams (SetLayerId id) m in
        setLayerId id this = setFragmentParams next this
        /\ fragmentParamsToSideNavMode next = fragmentParamsToSideNavMode m).
Proof.
  intros Hm. pose proof (getFragmentParams_wf this m Hm) as Hwf.
  split; [|split]; intros id next.
  - split; [exact (run_next (SetFeatureId id) this m eq_refl Hm)|].
    unfold fragmentParamsToSideNavMode. rewrite !truthy_get_selected.
    subst next. rewrite nextParams_feature.
    destruct (selected OBSERVATION_ID_FRAGMENT_PARAM m) eqn:Eo.
    + rewrite selected_applyUpdate_same by now apply applyUpdate_wf.
      cbn [truthy].
      rewrite selected_applyUpdate_other by exact key_f_o.
      now rewrite selected_applyUpdate_same.
    + rewrite selected_applyUpdate_other by (apply not_eq_sym, key_f_o).
      rewrite Eo. now rewrite selected_applyUpdate_same.
  - split; [exact (run_next (SetObservationId id) this m eq_refl Hm)|].
    unfold fragmentParamsToSideNavMode. rewrite !truthy_get_selected.
    subst next. change (nextParams (SetObservationId id) m)
      with (applyUpdate m (OBSERVATION_ID_FRAGMENT_PARAM, id)).
    rewrite selected_applyUpdate_same by exact Hwf.
    now rewrite selected_applyUpdate_other by exact key_f_o.
  - split; [exact (run_next (SetLayerId id) this m eq_refl Hm)|].
    unfold fragmentParamsToSideNavMode. rewrite !truthy_get_selected.
    subst next. change (nextParams (SetLayerId id) m)
      with (applyUpdate m (LAYER_ID_FRAGMENT_PARAM, Some id)).
    rewrite !selected_applyUpdate_other;
      [reflexivity | apply not_eq_sym, key_l_f | apply not_eq_sym, key_l_o].
Qed.

Lemma mode_after_command_witness :
  let this := serviceAt (Some "project/p1") (Some "l=L1") in
  let next := {| pmap := [("l", ["L1"]); ("o", ["O3"])] |} in
  setObservationId (Some "O3") this = setFragmentParams next this
  /\ fragmentParamsToSideNavMode next = OBSERVATION.
Proof.
  apply (proj1 (proj2 (mode_after_command
                  (serviceAt (Some "project/p1") (Some "l=L1"))
                  {| pmap := [("l", ["L1"])] |} eq_refl)) (Some "O3")).
Defined.

(** ** Commands in sequence *)

Lemma Map_set_same {V : Type} (k : string) (v : V) (m : JsMap V) :
  Map_get k m = Some v -> Map_set k v m = m.
Proof.
  induction m as [|[k0 v0] m IH]; cbn [Map_get Map_set]; [discriminate|].
  destruct (String.eqb_spec k0 k) as [->|Hne].
  - intros H. now inversion H.
  - intros H. now rewrite IH.
Qed.

Lemma Map_delete_absent {V : Type} (k : string) (m : JsMap V) :
  Map_get k m = None -> Map_delete k m = m.
Proof.
  induction m as [|[k0 v0] m IH]; cbn [Map_get Map_delete]; [reflexivity|].
  destruct (String.eqb_spec k0 k) as [->|Hne]; [discriminate|].
  intros H. now rewrite IH.
Qed.

Lemma applyUpdate_absorb k v p :
  HttpParams_getAll k p = (if truthy v then Some [orEmpty v] else None) ->
  applyUpdate p (k, v) = p.
Proof.
  destruct p as [m]. unfold HttpParams_getAll, applyUpdate. cbn [pmap].
  destruct (truthy v); intros H;
    unfold HttpParams_set, HttpParams_delete; cbn [pmap]; f_equal.
  - now apply Map_set_same.
  - now apply Map_delete_absent.
Qed.

Lemma applyUpdate_getAll_full k k' v p :
  Map_wf (pmap p) = true ->
  HttpParams_getAll k (applyUpdate p (k', v))
  = if k =? k' then (if truthy v then Some [orEmpty v] else None)
    else HttpParams_getAll k p.
Proof.
  intros Hwf. destruct (String.eqb_spec k k') as [->|Hne].
  - now apply applyUpdate_getAll_same.
  - now apply applyUpdate_getAll.
Qed.

Lemma applyUpdate_comm k1 v1 k2 v2 p :
  Map_wf (pmap p) = true -> k1 <> k2 ->
  sameContent (applyUpdate (applyUpdate p (k1, v1)) (k2, v2))
              (applyUpdate (applyUpdate p (k2, v2)) (k1, v1)).
Proof.
  intros Hwf Hne k.
  rewrite !applyUpdate_getAll_full by (try apply applyUpdate_wf; exact Hwf).
  destruct (String.eqb_spec k k1) as [E1|H1];
    destruct (String.eqb_spec k k2) as [E2|H2]; congruence.
Qed.

Lemma applyUpdate_sameContent p q kv :
  Map_wf (pmap p) = true -> Map_wf (pmap q) = true ->
  sameContent p q -> sameContent (applyUpdate p kv) (applyUpdate q kv).
Proof.
  intros Hp Hq H k. destruct kv as [k' v].
  rewrite !applyUpdate_getAll_full by assumption.
  destruct (k =? k'); [reflexivity | apply H].
Qed.

(** X3. Repeating a fragment command is the same request again: where the
    current fragment decodes to [m], and on a service whose current fragment
    decodes to the parameters the command made of [m], the command hands
    [setFragmentParams] those very parameters, keys and values in the same
    order. *)
Theorem fragment_command_idempotent
  (c : Command) (this this' : NavigationService) (m : HttpParams) :
  fragmentCommand c = true ->
  getFragmentParams this = Ok m ->
  getFragmentParams this' = Ok (nextParams c m) ->
  run c this = setFragmentParams (nextParams c m) this
  /\ run c this' = setFragmentParams (nextParams c m) this'.
Proof.
  intros Hc Hm Hm'. pose proof (getFragmentParams_wf this m Hm) as Hwf.
  split; [exact (run_next c this m Hc Hm)|].
  rewrite (run_next c this' _ Hc Hm'). f_equal.
  destruct c; try discriminate.
  - rewrite (nextParams_feature id (nextParams (SetFeatureId id) m)).
    rewrite nextParams_feature.
    destruct (selected OBSERVATION_ID_FRAGMENT_PARAM m) eqn:Eo.
    + rewrite selected_applyUpdate_same by now apply applyUpdate_wf.
      cbn [truthy]. apply applyUpdate_absorb.
      rewrite applyUpdate_getAll by exact key_f_o.
      now apply applyUpdate_getAll_same.
    + rewrite selected_applyUpdate_other by (apply not_eq_sym, key_f_o).
      rewrite Eo. apply applyUpdate_absorb.
      now apply applyUpdate_getAll_same.
  - change (nextParams (SetObservationId id) m)
      with (applyUpdate m (OBSERVATION_ID_FRAGMENT_PARAM, id)).
    change (nextParams (SetObservationId id) ?p)
      with (applyUpdate p (OBSERVATION_ID_FRAGMENT_PARAM, id)).
    apply applyUpdate_absorb. now apply applyUpdate_getAll_same.
  - change (nextParams (SetLayerId id) m)
      with (applyUpdate m (LAYER_ID_FRAGMENT_PARAM, Some id)).
    change (nextParams (SetLayerId id) ?p)
      with (applyUpdate p (LAYER_ID_FRAGMENT_PARAM, Some id)).
    apply applyUpdate_absorb. now apply applyUpdate_getAll_same.
Qed.

Lemma fragment_command_idempotent_witness :
  let this := serviceAt (Some "project/p1") (Some "l=L1&f=F2&o=O3") in
  let this' := serviceAt (Some "project/p1") (Some "l=L1&f=F9") in
  let next := {| pmap := [("l", ["L1"]); ("f", ["F9"])] |} in
  run (SetFeatureId (Some "F9")) this = setFragmentParams next this
  /\ run (SetFeatureId (Some "F9")) this' = setFragmentParams next this'.
Proof.
  apply (fragment_command_idempotent (SetFeatureId (Some "F9"))
           (serviceAt (Some "project/p1") (Some "l=L1&f=F2&o=O3"))
           (serviceAt (Some "project/p1") (Some "l=L1&f=F9"))
           {| pmap := [("l", ["L1"]); ("f", ["F2"]); ("o", ["O3"])] |});
    reflexivity.
Defined.

(** X4. The layer is an axis of its own: where the current fragment decodes
    to [m], [setLayerId] run after [setFeatureId] or [setObservationId] has
    taken effect, and that command run after [setLayerId] has taken effect,
    hand [setFragmentParams] parameters with the same values at every key
    (the keys may come in a different order). *)
Theorem setLayerId_commutes
  (c : Command) (layer : string) (this thisC thisL : NavigationService)
  (m : HttpParams) :
  (exists id, c = SetFeatureId id \/ c = SetObservationId id) ->
  getFragmentParams this = Ok m ->
  getFragmentParams thisC = Ok (nextParams c m) ->
  getFragmentParams thisL = Ok (nextParams (SetLayerId layer) m) ->
  exists viaC viaL,
    setLayerId layer thisC = setFragmentParams viaC thisC
    /\ run c thisL = setFragmentParams viaL thisL
    /\ sameContent viaC viaL.
Proof.
  intros Hc Hm HmC HmL. pose proof (getFragmentParams_wf this m Hm) as Hwf.
  assert (Hfc : fragmentCommand c = true)
    by (destruct Hc as [id [-> | ->]]; reflexivity).
  exists (nextParams (SetLayerId layer) (nextParams c m)),
         (nextParams c (nextParams (SetLayerId layer) m)).
  split; [exact (run_next (SetLayerId layer) thisC _ eq_refl HmC)|].
  split; [exact (run_next c thisL _ Hfc HmL)|].
  change (nextParams (SetLayerId layer) ?p)
    with (applyUpdate p (LAYER_ID_FRAGMENT_PARAM, Some layer)).
  destruct Hc as [id [-> | ->]].
  - rewrite !nextParams_feature.
    rewrite selected_applyUpdate_other by (apply not_eq_sym, key_l_o).
    destruct (selected OBSERVATION_ID_FRAGMENT_PARAM m).
    + intros k.
      rewrite (applyUpdate_comm OBSERVATION_ID_FRAGMENT_PARAM None
                 LAYER_ID_FRAGMENT_PARAM (Some layer))
        by (try apply applyUpdate_wf; try exact Hwf;
            apply not_eq_sym, key_l_o).
      apply applyUpdate_sameContent;
        try (repeat apply applyUpdate_wf; exact Hwf).
      apply applyUpdate_comm; [exact Hwf | apply not_eq_sym, key_l_f].
    + apply applyUpdate_comm; [exact Hwf | apply not_eq_sym, key_l_f].
  - change (nextParams (SetObservationId id) ?p)
      with (applyUpdate p (OBSERVATION_ID_FRAGMENT_PARAM, id)).
    apply applyUpdate_comm; [exact Hwf | apply not_eq_sym, key_l_o].
Qed.

Lemma setLayerId_commutes_witness :
  exists viaC viaL,
    setLayerId "q" (serviceAt (Some "project/p1") (Some "f=def"))
    = setFragmentParams viaC (serviceAt (Some "project/p1") (Some "f=def"))
    /\ run (SetFeatureId (Some "def"))
           (serviceAt (Some "project/p1") (Some "f=abc&o=xyz&l=q"))
       = setFragmentParams viaL
           (serviceAt (Some "project/p1") (Some "f=abc&o=xyz&l=q"))
    /\ sameContent viaC viaL.
Proof.
  apply (setLayerId_commutes (SetFeatureId (Some "def")) "q"
           (serviceAt (Some "project/p1") (Some "f=abc&o=xyz"))
           (serviceAt (Some "project/p1") (Some "f=def"))
           (serviceAt (Some "project/p1") (Some "f=abc&o=xyz&l=q"))
           {| pmap := [("f", ["abc"]); ("o", ["xyz"])] |}).
  - exists (Some "def"). now left.
  - reflexivity.
  - reflexivity.
  - reflexivity.
Defined.

(** X5. Feature and observation do not commute. Where the current fragment
    decodes to [m] and the observation id is not null or empty:
    [setFeatureId] run after [setObservationId] has taken effect hands over
    parameters without the observation key, while [setObservationId] run
    after [setFeatureId] has taken effect hands over parameters where the
    observation key has that id. *)
Theorem feature_after_observation_clears
  (feature observation : option string)
  (this thisF thisO : NavigationService) (m : HttpParams) :
  truthy observation = true ->
  getFragmentParams this = Ok m ->
  getFragmentParams thisO = Ok (nextParams (SetObservationId observation) m) ->
  getFragmentParams thisF = Ok (nextParams (SetFeatureId feature) m) ->
  exists viaO viaF,
    setFeatureId feature thisO = setFragmentParams viaO thisO
    /\ HttpParams_getAll OBSERVATION_ID_FRAGMENT_PARAM viaO = None
    /\ setObservationId observation thisF = setFragmentParams viaF thisF
    /\ HttpParams_getAll OBSERVATION_ID_FRAGMENT_PARAM viaF
       = Some [orEmpty observation].
Proof.
  intros Ho Hm HmO HmF. pose proof (getFragmentParams_wf this m Hm) as Hwf.
  exists (nextParams (SetFeatureId feature)
            (nextParams (SetObservationId observation) m)),
         (nextParams (SetObservationId observation)
            (nextParams (SetFeatureId feature) m)).
  split; [exact (run_next (SetFeatureId feature) thisO _ eq_refl HmO)|].
  split; [|split;
           [exact (run_next (SetObservationId observation) thisF _
                     eq_refl HmF)|]].
  - rewrite nextParams_feature.
    change (nextParams (SetObservationId observation) m)
      with (applyUpdate m (OBSERVATION_ID_FRAGMENT_PARAM, observation)).
    rewrite selected_applyUpdate_same, Ho by exact Hwf.
    rewrite applyUpdate_getAll_same by (repeat apply applyUpdate_wf; exact Hwf).
    reflexivity.
  - change (nextParams (SetObservationId observation) ?p)
      with (applyUpdate p (OBSERVATION_ID_FRAGMENT_PARAM, observation)).
    rewrite applyUpdate_getAll_same, Ho; [reflexivity|].
    apply (getFragmentParams_wf thisF _ HmF).
Qed.

Lemma feature_after_observation_clears_witness :
  exists viaO viaF,
    setFeatureId (Some "F2")
      (serviceAt (Some "project/p1") (Some "l=L1&o=O3"))
    = setFragmentParams viaO
        (serviceAt (Some "project/p1") (Some "l=L1&o=O3"))
    /\ HttpParams_getAll OBSERVATION_ID_FRAGMENT_PARAM viaO = None
    /\ setObservationId (Some "O3")
         (serviceAt (Some "project/p1") (Some "l=L1&f=F2"))
       = setFragmentParams viaF
           (serviceAt (Some "project/p1") (Some "l=L1&f=F2"))
    /\ HttpParams_getAll OBSERVATION_ID_FRAGMENT_PARAM viaF = Some ["O3"].
Proof.
  apply (feature_after_observation_clears (Some "F2") (Some "O3")
           (serviceAt (Some "project/p1") (Some "l=L1"))
           (serviceAt (Some "project/p1") (Some "l=L1&f=F2"))
           (serviceAt (Some "project/p1") (Some "l=L1&o=O3"))
           {| pmap := [("l", ["L1"])] |}); reflexivity.
Defined.

(** ** When a command fails *)

Lemma rmap_Throw {A B : Type} (f : A -> B) r e :
  rmap f r = Throw e -> r = Throw e.
Proof. destruct r; cbn; [discriminate | now intros H; inversion H]. Qed.

Lemma decode_from_error n : forall s pending lo hi e,
  String.length s <= n ->
  decode_from pending lo hi s = Throw e -> e = URIError.
Proof.
  induction n as [|n IH]; intros s pending lo hi e Hlen H.
  - destruct s; [|cbn in Hlen; lia]. destruct pending; cbn in H;
      [discriminate | now inversion H].
  - destruct s as [|c s1].
    { destruct pending; cbn in H; [discriminate | now inversion H]. }
    cbn [String.length] in Hlen. cbn [decode_from] in H.
    destruct (Ascii.eqb c "%").
    + destruct s1 as [|h1 [|h2 rest]]; try (now inversion H).
      cbn [String.length] in Hlen.
      destruct (hexval h1); [|now inversion H].
      destruct (hexval h2); [|now inversion H].
      cbv zeta in H. destruct pending.
      * destruct (Nat.ltb _ 128).
        -- apply rmap_Throw in H. apply IH in H; [exact H | lia].
        -- destruct (utf8_lead _) as [[[k lo'] hi']|]; [|now inversion H].
           apply rmap_Throw in H. apply IH in H; [exact H | lia].
      * destruct (between lo hi _); [|now inversion H].
        apply rmap_Throw in H. apply IH in H; [exact H | lia].
    + destruct pending; [|now inversion H].
      apply rmap_Throw in H. apply IH in H; [exact H | lia].
Qed.

Lemma decodeURIComponent_error s e :
  decodeURIComponent s = Throw e -> e = URIError.
Proof. apply (decode_from_error (String.length s)). lia. Qed.

Lemma parseParam_error acc param e :
  parseParam acc param = Throw e -> e = URIError.
Proof.
  unfold parseParam. cbn [decodeKey decodeValue HttpUrlEncodingCodec].
  destruct (indexOf "=" param) as [i|].
  - destruct (decodeURIComponent (take i param)) eqn:Ek; cbn [bind].
    + destruct (decodeURIComponent (drop (i + 1) param)) eqn:Ev; cbn [bind];
        [discriminate|].
      intros H. inversion H; subst. exact (decodeURIComponent_error _ _ Ev).
    + intros H. inversion H; subst. exact (decodeURIComponent_error _ _ Ek).
  - destruct (decodeURIComponent param) eqn:Ek; cbn [bind]; [discriminate|].
    intros H. inversion H; subst. exact (decodeURIComponent_error _ _ Ek).
Qed.

Lemma parseParams_error params : forall acc e,
  parseParams acc params = Throw e -> e = URIError.
Proof.
  induction params as [|param params IH]; intros acc e; cbn [parseParams];
    [discriminate|].
  destruct (parseParam acc param) eqn:E; cbn [bind].
  - apply IH.
  - intros H. inversion H; subst. exact (parseParam_error _ _ _ E).
Qed.

Lemma fromString_error s e :
  HttpParams_fromString s = Throw e -> e = URIError.
Proof.
  unfold HttpParams_fromString, paramParser.
  destruct (negb (s =? "")); [|discriminate].
  destruct (Nat.ltb 0 (String.length s)); [|discriminate].
  destruct (parseParams [] (split "&" s)) eqn:E; cbn [bind]; [discriminate|].
  intros H. inversion H; subst. exact (parseParams_error _ _ _ E).
Qed.

Lemma run_throw c this e :
  fragmentCommand c = true -> getFragmentParams this = Throw e ->
  run c this = Throw e.
Proof.
  intros Hc H. destruct c; try discriminate; cbn [run];
    unfold setFeatureId, setObservationId, setLayerId, getObservationId,
      setFragmentParam; now rewrite H.
Qed.

(** X6. How the commands fail. [selectProject], [newProject], [signIn] and
    [signOut] never fail, bound to a route or not. A fragment command fails
    with the error of reading the current fragment whenever that fails, and
    with a TypeError whenever the fragment is read and the current url has no
    primary path. Reading the current fragment fails exactly when no route is
    bound, a TypeError, or when the fragment of the snapshot does not decode,
    a URIError. *)
Theorem command_failure (c : Command) (this : NavigationService) (e : JsError) :
  (fragmentCommand c = false -> exists this', run c this = Ok this')
  /\ (fragmentCommand c = true -> getFragmentParams this = Throw e ->
      run c this = Throw e)
  /\ (fragmentCommand c = true -> (exists m, getFragmentParams this = Ok m) ->
      primary (router this) = None -> run c this = Throw TypeError)
  /\ (getFragmentParams this = Throw e <->
      (activatedRoute this = None /\ e = TypeError)
      \/ (exists route,
            activatedRoute this = Some route
            /\ HttpParams_fromString
                 (orEmpty (snapshot_fragment (snapshot route))) = Throw e
            /\ e = URIError)).
Proof.
  split; [|split; [|split; [|split]]].
  - intros Hc. destruct c; try discriminate; cbn [run]; now eexists.
  - intros Hc Hg. now apply run_throw.
  - intros Hc [m Hg] Hp. rewrite (run_next c this m Hc Hg).
    unfold setFragmentParams. now rewrite Hp.
  - unfold getFragmentParams. destruct (activatedRoute this) as [route|];
      cbn [bind]; intros H.
    + right. exists route. repeat split; [exact H|].
      exact (fromString_error _ _ H).
    + left. now inversion H.
  - unfold getFragmentParams. intros [[Hr He] | [route [Hr [Hd _]]]];
      rewrite Hr; cbn [bind]; [now rewrite He | exact Hd].
Qed.

Lemma command_failure_witness :
  run (SetFeatureId (Some "F2"))
      (constructor {| primary := Some "project/p1"; requests := [] |})
  = Throw TypeError
  /\ run (SetLayerId "q") (serviceAt (Some "project/p1") (Some "f=100%"))
     = Throw URIError
  /\ run (SetLayerId "q") (serviceAt None (Some "f=abc")) = Throw TypeError
  /\ exists this',
       run SignOut
           (constructor {| primary := None; requests := [] |}) = Ok this'.
Proof.
  split; [|split; [|split]].
  - apply (proj1 (proj2 (command_failure (SetFeatureId (Some "F2"))
             (constructor {| primary := Some "project/p1"; requests := [] |})
             TypeError))); reflexivity.
  - apply (proj1 (proj2 (command_failure (SetLayerId "q")
             (serviceAt (Some "project/p1") (Some "f=100%")) URIError)));
      reflexivity.
  - apply (proj1 (proj2 (proj2 (command_failure (SetLayerId "q")
             (serviceAt None (Some "f=abc")) TypeError)))).
    + reflexivity.
    + now eexists.
    + reflexivity.
  - apply (proj1 (command_failure SignOut
             (constructor {| primary := None; requests := [] |}) TypeError)).
    reflexivity.
Defined.

(** ** What a command leaves alone *)

Lemma run_request c this this' :
  run c this = Ok this' ->
  exists r,
    router this' = Router_request r (router this)
    /\ activatedRoute this' = activatedRoute this
    /\ projectId' this' = projectId' this
    /\ layerId' this' = layerId' this
    /\ featureId' this' = featureId' this
    /\ observationId' this' = observationId' this
    /\ sideNavMode' this' = sideNavMode' this.
Proof.
  assert (Hnav : forall updates,
    setFragmentParam updates this = Ok this' ->
    exists r,
      router this' = Router_request r (router this)
      /\ activatedRoute this' = activatedRoute this
      /\ projectId' this' = projectId' this
      /\ layerId' this' = layerId' this
      /\ featureId' this' = featureId' this
      /\ observationId' this' = observationId' this
      /\ sideNavMode' this' = sideNavMode' this).
  { intros updates H.
    apply setFragmentParam_request in H as [path [extras [-> _]]].
    eexists. repeat split. }
  destruct c; cbn [run]; intros H.
  - unfold setFeatureId in H.
    destruct (getObservationId this); [|discriminate].
    cbn [bind] in H. now apply Hnav in H.
  - now apply Hnav in H.
  - now apply Hnav in H.
  - inversion H. eexists. repeat split.
  - inversion H. eexists. repeat split.
  - inversion H. eexists. repeat split.
  - inversion H. eexists. repeat split.
Qed.

(** X7. A command only asks the router: after any command that returns, the
    service is bound to the same route at the same primary path, its five
    streams are the same, and [getFeatureId] and [getObservationId] answer
    as before, from the snapshot of the route, not from what was just set. *)
Theorem command_keeps_reads
  (c : Command) (this this' : NavigationService) :
  run c this = Ok this' ->
  activatedRoute this' = activatedRoute this
  /\ primary (router this') = primary (router this)
  /\ getFeatureId this' = getFeatureId this
  /\ getObservationId this' = getObservationId this
  /\ getProjectId' this' = getProjectId' this
  /\ getLayerId' this' = getLayerId' this
  /\ getFeatureId' this' = getFeatureId' this
  /\ getObservationId' this' = getObservationId' this
  /\ getSideNavMode' this' = getSideNavMode' this.
Proof.
  intros H.
  apply run_request in H as [r [Hro [Hr [Hp [Hl [Hf [Ho Hs]]]]]]].
  unfold getFeatureId, getObservationId, getFragmentParams, getProjectId',
    getLayerId', getFeatureId', getObservationId', getSideNavMode'.
  rewrite Hro, Hr, Hp, Hl, Hf, Ho, Hs. repeat split.
Qed.

Lemma command_keeps_reads_witness :
  let this := serviceAt (Some "project/p1") (Some "f=abc&o=xyz") in
  let this' :=
    Router_navigate ["project/p1"]
      {| extras_fragment := Some "f=def"; replaceUrl := None |} this in
  activatedRoute this' = activatedRoute this
  /\ primary (router this') = primary (router this)
  /\ getFeatureId this' = getFeatureId this
  /\ getObservationId this' = getObservationId this
  /\ getProjectId' this' = getProjectId' this
  /\ getLayerId' this' = getLayerId' this
  /\ getFeatureId' this' = getFeatureId' this
  /\ getObservationId' this' = getObservationId' this
  /\ getSideNavMode' this' = getSideNavMode' this.
Proof.
  apply (command_keeps_reads (SetFeatureId (Some "def"))
           (serviceAt (Some "project/p1") (Some "f=abc&o=xyz"))).
  reflexivity.
Defined.

(** ** Reading back what was asked for *)

(** X8. Where the current fragment decodes to URL-safe keys and values, the
    url has a primary path and the id is URL-safe, the navigation a fragment
    command asks for carries a fragment (or none) that decodes to exactly the
    parameters it was written from; so a service bound to a route whose
    snapshot has that fragment reads these parameters, and from them the
    feature and observation ids. *)
Theorem requested_fragment_reads_back
  (c : Command) (this : NavigationService) (m : HttpParams) (path : string) :
  fragmentCommand c = true ->
  getFragmentParams this = Ok m ->
  primary (router this) = Some path ->
  urlSafeMap (pmap m) = true ->
  urlSafeCommand c = true ->
  let next := nextParams c m in
  exists extras,
    run c this = Ok (Router_navigate [path] extras this)
    /\ HttpParams_fromString (orEmpty (extras_fragment extras)) = Ok next
    /\ forall after route,
         activatedRoute after = Some route ->
         snapshot_fragment (snapshot route) = extras_fragment extras ->
         getFragmentParams after = Ok next
         /\ getFeatureId after
            = Ok (HttpParams_get FEATURE_ID_FRAGMENT_PARAM next)
         /\ getObservationId after
            = Ok (HttpParams_get OBSERVATION_ID_FRAGMENT_PARAM next).
Proof.
  intros Hc Hm Hp Hs Hsc next.
  pose proof (getFragmentParams_wf this m Hm) as Hwf.
  assert (Hwfn : Map_wf (pmap next) = true) by now apply applyUpdates_wf.
  assert (Hsn : urlSafeMap (pmap next) = true)
    by (apply applyUpdates_urlSafe;
        [now apply commandUpdates_urlSafe | exact Hs]).
  assert (Hd : HttpParams_fromString
                 (orEmpty (extras_fragment (targetExtras next))) = Ok next).
  { unfold targetExtras. destruct (pmap next) as [|kv rest] eqn:E.
    - destruct next as [mn]. cbn [pmap] in E. subst mn. reflexivity.
    - cbn [extras_fragment orEmpty].
      apply toString_fromString; now rewrite E. }
  exists (targetExtras next). split; [|split; [exact Hd|]].
  - rewrite (run_next c this m Hc Hm). fold next.
    apply setFragmentParams_target; [|exact Hp].
    now apply Map_wf_iff in Hwfn as [_ Hv].
  - intros after route Hr Hf.
    assert (Hg : getFragmentParams after = Ok next)
      by (unfold getFragmentParams; rewrite Hr; cbn [bind]; now rewrite Hf).
    unfold getFeatureId, getObservationId. rewrite Hg. repeat split.
Qed.

Lemma requested_fragment_reads_back_witness :
  exists extras,
    run (SetFeatureId (Some "F9"))
        (serviceAt (Some "project/p1") (Some "l=L1&f=F2&o=O3"))
    = Ok (Router_navigate ["project/p1"] extras
            (serviceAt (Some "project/p1") (Some "l=L1&f=F2&o=O3")))
    /\ HttpParams_fromString (orEmpty (extras_fragment extras))
       = Ok {| pmap := [("l", ["L1"]); ("f", ["F9"])] |}
    /\ forall after route,
         activatedRoute after = Some route ->
         snapshot_fragment (snapshot route) = extras_fragment extras ->
         getFragmentParams after
         = Ok {| pmap := [("l", ["L1"]); ("f", ["F9"])] |}
         /\ getFeatureId after = Ok (Some "F9")
         /\ getObservationId after = Ok None.
Proof.
  apply (requested_fragment_reads_back (SetFeatureId (Some "F9"))
           (serviceAt (Some "project/p1") (Some "l=L1&f=F2&o=O3"))
           {| pmap := [("l", ["L1"]); ("f", ["F2"]); ("o", ["O3"])] |}
           "project/p1"); reflexivity.
Defined.

(** ** The streams of init *)

Lemma rx_map_Next_Throw {A B : Type} (f : A -> Result B) xs ys bad e rest :
  Forall2 (fun x y => f x = Ok y) xs ys ->
  f bad = Throw e ->
  rx_map f (map Next xs ++ Next bad :: rest) = map Next ys ++ [Error e].
Proof.
  intros H Hbad. induction H as [|x y xs ys Hxy _ IH].
  - cbn [map app rx_map]. now rewrite Hbad.
  - cbn [map app rx_map]. now rewrite Hxy, IH.
Qed.

Lemma rx_map_Ok_Error {A B : Type} (g : A -> B) xs e :
  rx_map (fun x => Ok (g x)) (map Next xs ++ [Error e])
  = map (fun x => Next (g x)) xs ++ [Error e].
Proof.
  induction xs as [|x xs IH]; [reflexivity|].
  cbn [map app rx_map]. now rewrite IH.
Qed.

Lemma combine_map {A B C : Type} (f : A -> B) (g : A -> C) l :
  combine (map f l) (map g l) = map (fun x => (f x, g x)) l.
Proof. induction l as [|x l IH]; [reflexivity|]. cbn. now rewrite IH. Qed.

(** X9. A fragment that does not decode ends the fragment streams. When the
    route emits fragments that decode and then one that does not, each of the
    layer-id, feature-id, observation-id and side-nav-mode streams emits its
    value for every fragment before that one, then the URIError, and nothing
    for the fragments after it; the project-id stream, fed by the route
    parameters, goes on with one value per parameter map. *)
Theorem streams_end_at_malformed_fragment
  (route : ActivatedRoute) (this : NavigationService)
  (good : list (option string)) (decoded : list HttpParams)
  (bad : option string) (later : Observable (option string)) (e : JsError)
  (params : list ParamMap) :
  fragment route = map Next good ++ Next bad :: later ->
  Forall2 (fun fr m => HttpParams_fromString (orEmpty fr) = Ok m)
          good decoded ->
  HttpParams_fromString (orEmpty bad) = Throw e ->
  paramMap route = map Next params ->
  let service := init route this in
  e = URIError
  /\ getLayerId' service
     = Ok (Some (map (fun m => Next (HttpParams_get LAYER_ID_FRAGMENT_PARAM m))
                     decoded ++ [Error e]))
  /\ getFeatureId' service
     = Ok (Some (map (fun m => Next (HttpParams_get FEATURE_ID_FRAGMENT_PARAM m))
                     decoded ++ [Error e]))
  /\ getObservationId' service
     = Ok (Some (map (fun m =>
                        Next (HttpParams_get OBSERVATION_ID_FRAGMENT_PARAM m))
                     decoded ++ [Error e]))
  /\ getSideNavMode' service
     = Ok (Some (map (fun m => Next (fragmentParamsToSideNavMode m)) decoded
                 ++ [Error e]))
  /\ getProjectId' service
     = Ok (Some (map (fun pm => Next (ParamMap_get PROJECT_ID pm)) params)).
Proof.
  intros Hf Hd Hbad Hpm service. subst service.
  split; [exact (fromString_error _ _ Hbad)|].
  unfold getLayerId', getFeatureId', getObservationId', getSideNavMode',
    getProjectId', init.
  cbn [layerId' featureId' observationId' sideNavMode' projectId'].
  rewrite Hf, Hpm.
  rewrite (rx_map_Next_Throw _ good decoded bad e later Hd Hbad).
  rewrite !rx_map_Ok_Error, rx_map_Ok. repeat split.
Qed.

Lemma streams_end_at_malformed_fragment_witness :
  let route :=
    {| paramMap := [Next [("projectId", "p1")]; Next [("projectId", "p2")]];
       fragment := [Next (Some "l=a"); Next (Some "l=%"); Next (Some "l=b")];
       snapshot := {| snapshot_fragment := Some "l=b" |} |} in
  let service :=
    init route (constructor {| primary := Some "project/p1"; requests := [] |})
  in
  URIError = URIError
  /\ getLayerId' service = Ok (Some [Next (Some "a"); Error URIError])
  /\ getFeatureId' service = Ok (Some [Next None; Error URIError])
  /\ getObservationId' service = Ok (Some [Next None; Error URIError])
  /\ getSideNavMode' service = Ok (Some [Next LAYER_LIST; Error URIError])
  /\ getProjectId' service = Ok (Some [Next (Some "p1"); Next (Some "p2")]).
Proof.
  apply (streams_end_at_malformed_fragment
           {| paramMap := [Next [("projectId", "p1")];
                           Next [("projectId", "p2")]];
              fragment := [Next (Some "l=a"); Next (Some "l=%");
                           Next (Some "l=b")];
              snapshot := {| snapshot_fragment := Some "l=b" |} |}
           (constructor {| primary := Some "project/p1"; requests := [] |})
           [Some "l=a"] [ {| pmap := [("l", ["a"])] |} ] (Some "l=%")
           [Next (Some "l=b")] URIError
           [[("projectId", "p1")]; [("projectId", "p2")]]).
  - reflexivity.
  - repeat constructor.
  - reflexivity.
  - reflexivity.
Defined.

(** X10. The mode stream agrees with the id streams. For every sequence of
    fragments the route emits, each of which decodes, the observation-id,
    feature-id and side-nav-mode streams emit once per fragment, and the mode
    emitted for a fragment is the one that goes with the observation id and
    the feature id emitted for the same fragment: OBSERVATION when the
    observation id is not null or empty, else FEATURE when the feature id is
    not, else LAYER_LIST. *)
Theorem sideNavMode_stream_follows_ids
  (route : ActivatedRoute) (this : NavigationService)
  (fragments : list (option string)) (decoded : list HttpParams) :
  fragment route = map Next fragments ->
  Forall2 (fun fr m => HttpParams_fromString (orEmpty fr) = Ok m)
          fragments decoded ->
  let service := init route this in
  exists observations features,
    length observations = length fragments
    /\ length features = length fragments
    /\ getObservationId' service = Ok (Some (map Next observations))
    /\ getFeatureId' service = Ok (Some (map Next features))
    /\ getSideNavMode' service
       = Ok (Some (map (fun ids => Next (modeOfIds (fst ids) (snd ids)))
                       (combine observations features))).
Proof.
  intros Hf Hd service. subst service.
  exists (map (HttpParams_get OBSERVATION_ID_FRAGMENT_PARAM) decoded),
         (map (HttpParams_get FEATURE_ID_FRAGMENT_PARAM) decoded).
  rewrite !length_map, <- (Forall2_length Hd).
  unfold getFeatureId', getObservationId', getSideNavMode', init.
  cbn [featureId' observationId' sideNavMode']. rewrite Hf.
  rewrite (rx_map_Next _ fragments decoded Hd), !rx_map_Ok.
  rewrite combine_map, !map_map. repeat split.
Qed.

Lemma sideNavMode_stream_follows_ids_witness :
  let route :=
    {| paramMap := [];
       fragment := [Next None; Next (Some "f=F2"); Next (Some "f=F2&o=O3");
                    Next (Some "f=&o=")];
       snapshot := {| snapshot_fragment := Some "f=&o=" |} |} in
  let service :=
    init route (constructor {| primary := Some "project/p1"; requests := [] |})
  in
  exists observations features,
    length observations = 4
    /\ length features = 4
    /\ getObservationId' service = Ok (Some (map Next observations))
    /\ getFeatureId' service = Ok (Some (map Next features))
    /\ getSideNavMode' service
       = Ok (Some (map (fun ids => Next (modeOfIds (fst ids) (snd ids)))
                       (combine observations features))).
Proof.
  apply (sideNavMode_stream_follows_ids
           {| paramMap := [];
              fragment := [Next None; Next (Some "f=F2");
                           Next (Some "f=F2&o=O3"); Next (Some "f=&o=")];
              snapshot := {| snapshot_fragment := Some "f=&o=" |} |}
           (constructor {| primary := Some "project/p1"; requests := [] |})
           [None; Some "f=F2"; Some "f=F2&o=O3"; Some "f=&o="]
           [ {| pmap := [] |};
             {| pmap := [("f", ["F2"])] |};
             {| pmap := [("f", ["F2"]); ("o", ["O3"])] |};
             {| pmap := [("f", [EmptyString]); ("o", [EmptyString])] |} ]).
  - reflexivity.
  - repeat constructor.
Defined.

(** X11. The getters agree with the streams. On a service bound by [init] to
    a route whose snapshot holds the fragment it emitted last, all fragments
    decoding, [getFeatureId] and [getObservationId] return the values the
    feature-id and observation-id streams emitted last, and the mode the
    side-nav-mode stream emitted last is the one that goes with them. *)
Theorem getters_agree_with_streams
  (route : ActivatedRoute) (this : NavigationService)
  (earlier : list (option string)) (current : option string)
  (decoded : list HttpParams) (m : HttpParams) :
  fragment route = map Next (earlier ++ [current]) ->
  snapshot_fragment (snapshot route) = current ->
  Forall2 (fun fr p => HttpParams_fromString (orEmpty fr) = Ok p)
          earlier decoded ->
  HttpParams_fromString (orEmpty current) = Ok m ->
  let service := init route this in
  exists feature observation features observations modes,
    getFeatureId service = Ok feature
    /\ getObservationId service = Ok observation
    /\ getFeatureId' service = Ok (Some (features ++ [Next feature]))
    /\ getObservationId' service
       = Ok (Some (observations ++ [Next observation]))
    /\ getSideNavMode' service
       = Ok (Some (modes ++ [Next (modeOfIds observation feature)])).
Proof.
  intros Hf Hs Hd Hm service. subst service.
  assert (Hall : Forall2 (fun fr p => HttpParams_fromString (orEmpty fr) = Ok p)
                   (earlier ++ [current]) (decoded ++ [m]))
    by (apply Forall2_app; [exact Hd | now constructor]).
  exists (HttpParams_get FEATURE_ID_FRAGMENT_PARAM m),
         (HttpParams_get OBSERVATION_ID_FRAGMENT_PARAM m),
         (map (fun p => Next (HttpParams_get FEATURE_ID_FRAGMENT_PARAM p))
              decoded),
         (map (fun p => Next (HttpParams_get OBSERVATION_ID_FRAGMENT_PARAM p))
              decoded),
         (map (fun p => Next (fragmentParamsToSideNavMode p)) decoded).
  unfold getFeatureId, getObservationId, getFragmentParams,
    getFeatureId', getObservationId', getSideNavMode', init.
  cbn [activatedRoute featureId' observationId' sideNavMode' bind].
  rewrite Hs, Hm, Hf. cbn [bind].
  rewrite (rx_map_Next _ _ _ Hall), !rx_map_Ok, !map_app. repeat split.
Qed.

Lemma getters_agree_with_streams_witness :
  let route :=
    {| paramMap := [];
       fragment := [Next (Some "l=L1"); Next (Some "l=L1&f=F2&o=O3")];
       snapshot := {| snapshot_fragment := Some "l=L1&f=F2&o=O3" |} |} in
  let service :=
    init route (constructor {| primary := Some "project/p1"; requests := [] |})
  in
  exists feature observation features observations modes,
    getFeatureId service = Ok feature
    /\ getObservationId service = Ok observation
    /\ getFeatureId' service = Ok (Some (features ++ [Next feature]))
    /\ getObservationId' service
       = Ok (Some (observations ++ [Next observation]))
    /\ getSideNavMode' service
       = Ok (Some (modes ++ [Next (modeOfIds observation feature)])).
Proof.
  apply (getters_agree_with_streams
           {| paramMap := [];
              fragment := [Next (Some "l=L1"); Next (Some "l=L1&f=F2&o=O3")];
              snapshot := {| snapshot_fragment := Some "l=L1&f=F2&o=O3" |} |}
           (constructor {| primary := Some "project/p1"; requests := [] |})
           [Some "l=L1"] (Some "l=L1&f=F2&o=O3")
           [ {| pmap := [("l", ["L1"])] |} ]
           {| pmap := [("l", ["L1"]); ("f", ["F2"]); ("o", ["O3"])] |}).
  - reflexivity.
  - reflexivity.
  - repeat constructor.
  - reflexivity.
Defined.

(** ** The order of the keys *)

Lemma Map_has_keys {V : Type} (k : string) (m : JsMap V) :
  Map_has k m = existsb (String.eqb k) (Map_keys m).
Proof.
  unfold Map_has. induction m as [|[k0 v0] m IH]; [reflexivity|].
  cbn [Map_get Map_keys map fst existsb]. rewrite (String.eqb_sym k k0).
  destruct (k0 =? k); [reflexivity | exact IH].
Qed.

Lemma Map_keys_set_eq {V : Type} (k : string) (v : V) (m : JsMap V) :
  Map_keys (Map_set k v m)
  = if Map_has k m then Map_keys m else Map_keys m ++ [k].
Proof.
  unfold Map_has. induction m as [|[k0 v0] m IH]; [reflexivity|].
  cbn [Map_set Map_get]. destruct (k0 =? k); [reflexivity|].
  cbn [Map_keys map fst]. fold (Map_keys (Map_set k v m)). rewrite IH.
  fold (Map_keys m). now destruct (Map_get k m).
Qed.

Lemma filter_absent k ks :
  ~ In k ks -> filter (fun k' => negb (k' =? k)) ks = ks.
Proof.
  induction ks as [|k0 ks IH]; [reflexivity|]. intros H. cbn [filter].
  destruct (String.eqb_spec k0 k) as [->|Hne].
  - exfalso. apply H. now left.
  - cbn [negb]. rewrite IH; [reflexivity|]. intros Hin. apply H. now right.
Qed.

Lemma Map_keys_delete_eq {V : Type} (k : string) (m : JsMap V) :
  NoDup (Map_keys m) ->
  Map_keys (Map_delete k m) = filter (fun k' => negb (k' =? k)) (Map_keys m).
Proof.
  induction m as [|[k0 v0] m IH]; [reflexivity|].
  cbn [Map_keys map fst]. fold (Map_keys m). intros Hnd.
  inversion Hnd as [|? ? Hk Hnd']; subst.
  cbn [Map_delete filter]. destruct (String.eqb_spec k0 k) as [->|Hne].
  - cbn [negb]. now rewrite filter_absent.
  - cbn [negb Map_keys map fst]. fold (Map_keys (Map_delete k m)).
    now rewrite IH.
Qed.

Lemma applyUpdate_keys k v p :
  Map_wf (pmap p) = true ->
  HttpParams_keys (applyUpdate p (k, v)) = keysAfter k v (HttpParams_keys p).
Proof.
  intros Hwf. apply Map_wf_iff in Hwf as [Hd _].
  unfold applyUpdate, keysAfter, HttpParams_keys.
  destruct (truthy v); cbn [HttpParams_set HttpParams_delete pmap].
  - now rewrite Map_keys_set_eq, Map_has_keys.
  - now apply Map_keys_delete_eq.
Qed.

(** X12. The order of the keys in the fragment a command writes. Where the
    current fragment decodes to [m], the keys of the parameters a fragment
    command hands to [setFragmentParams] are those of [m] in their order,
    with the command's key kept in its place when it was there and is set,
    put last when it is new, and taken out when it is cleared;
    [setFeatureId] takes out the observation key as well when an observation
    is selected. *)
Theorem command_key_order (this : NavigationService) (m : HttpParams) :
  getFragmentParams this = Ok m ->
  (forall id,
     let next := nextParams (SetLayerId id) m in
     setLayerId id this = setFragmentParams next this
     /\ HttpParams_keys next
        = keysAfter LAYER_ID_FRAGMENT_PARAM (Some id) (HttpParams_keys m))
  /\ (forall id,
        let next := nextParams (SetObservationId id) m in
        setObservationId id this = setFragmentParams next this
        /\ HttpParams_keys next
           = keysAfter OBSERVATION_ID_FRAGMENT_PARAM id (HttpParams_keys m))
  /\ (forall id,
        let next := nextParams (SetFeatureId id) m in
        setFeatureId id this = setFragmentParams next this
        /\ HttpParams_keys next
           = if selected OBSERVATION_ID_FRAGMENT_PARAM m
             then keysAfter OBSERVATION_ID_FRAGMENT_PARAM None
                    (keysAfter FEATURE_ID_FRAGMENT_PARAM id (HttpParams_keys m))
             else keysAfter FEATURE_ID_FRAGMENT_PARAM id (HttpParams_keys m)).
Proof.
  intros Hm. pose proof (getFragmentParams_wf this m Hm) as Hwf.
  split; [|split]; intros id next.
  - split; [exact (run_next (SetLayerId id) this m eq_refl Hm)|].
    now apply applyUpdate_keys.
  - split; [exact (run_next (SetObservationId id) this m eq_refl Hm)|].
    now apply applyUpdate_keys.
  - split; [exact (run_next (SetFeatureId id) this m eq_refl Hm)|].
    subst next. rewrite nextParams_feature.
    destruct (selected OBSERVATION_ID_FRAGMENT_PARAM m).
    + rewrite applyUpdate_keys by now apply applyUpdate_wf.
      now rewrite applyUpdate_keys.
    + now apply applyUpdate_keys.
Qed.

Lemma command_key_order_witness :
  let this := serviceAt (Some "project/p1") (Some "x=1&f=abc&o=xyz") in
  let next := {| pmap := [("x", ["1"]); ("f", ["def"])] |} in
  setFeatureId (Some "def") this = setFragmentParams next this
  /\ HttpParams_keys next = ["x"; "f"].
Proof.
  apply (proj2 (proj2 (command_key_order
                  (serviceAt (Some "project/p1") (Some "x=1&f=abc&o=xyz"))
                  {| pmap := [("x", ["1"]); ("f", ["abc"]); ("o", ["xyz"])] |}
                  eq_refl)) (Some "def")).
Defined.
